(** * neptunelearn.linear_models.neural_classifier: Perceptron and AdalineGD

    A shallow embedding of [neural_classifier.py] and a verification of the
    properties its specification states about fitting and prediction.

    Numbers.  The arrays of the program hold floating-point numbers; the
    embedding computes with exact rationals ([Qc], the canonical rationals of
    the Standard Library, whose equality is Leibniz equality).  Every result
    below is therefore about the algorithm in exact arithmetic.

    Arrays.  A 1-D [ndarray] is a [list Qc]; a 2-D [ndarray] is a record of
    its rows together with [shape1], its column count (which a list of rows
    alone cannot give when there is no row).

    Effects.  A method works on [self]: it reads and assigns attributes, and
    an exception leaves the assignments made before it in place.  Methods
    are therefore functions [self -> self * outcome]. *)

From Stdlib Require Import String Reals Qreals QArith Qcanon Qround ZArith List Bool.
From Stdlib Require Import Lia Lra Psatz.
Import ListNotations.

Local Close Scope R_scope.
Open Scope Qc_scope.

(* ===================================================================== *)
(** ** Exact arithmetic on [Qc] *)
(* ===================================================================== *)

Definition Z2Qc (z : Z) : Qc := Q2Qc (inject_Z z).
Definition nat2Qc (n : nat) : Qc := Z2Qc (Z.of_nat n).
Definition Qc_leb (x y : Qc) : bool := Qle_bool (this x) (this y).
Definition Qc_eqb (x y : Qc) : bool := Qeq_bool (this x) (this y).

(* ===================================================================== *)
(** ** numpy: 1-D and 2-D arrays *)
(* ===================================================================== *)

Definition vec := list Qc.

(** [np.zeros(n)] *)
Definition zeros (n : nat) : vec := repeat 0 n.

(** [u + v], [u - v] and [c * v] on arrays of one shape. *)
Fixpoint vadd (u v : vec) : vec :=
  match u, v with
  | a :: u', b :: v' => (a + b) :: vadd u' v'
  | _, _ => []
  end.

Fixpoint vsub (u v : vec) : vec :=
  match u, v with
  | a :: u', b :: v' => (a - b) :: vsub u' v'
  | _, _ => []
  end.

Definition vscale (c : Qc) (v : vec) : vec := map (fun a => c * a) v.

(** [np.dot(u, v)] on two 1-D arrays of one length. *)
Fixpoint dot (u v : vec) : Qc :=
  match u, v with
  | a :: u', b :: v' => a * b + dot u' v'
  | _, _ => 0
  end.

(** [np.linalg.norm(v) <= tol].  The norm is [sqrt (dot v v)], which is not
    rational; over the reals [sqrt s <= t] says [0 <= t] and [s <= t * t]
    for [0 <= s], and that is what is computed here. *)
Definition norm_le (v : vec) (tol : Qc) : bool :=
  Qc_leb 0 tol && Qc_leb (dot v v) (tol * tol).

(** [np.linalg.norm(v)] itself, as a real number. *)
Definition norm (v : vec) : R := sqrt (Q2R (this (dot v v))).

Record ndarray2 : Type := mk_ndarray2 {
  shape1 : nat;
  rows : list vec
}.

Definition shape0 (X : ndarray2) : nat := length (rows X).

(** The invariant of a 2-D array: every row has [shape1] entries. *)
Definition is_2d (X : ndarray2) : Prop :=
  Forall (fun r => length r = shape1 X) (rows X).

(* ===================================================================== *)
(** ** Methods on [self] *)
(* ===================================================================== *)

Inductive exn : Type := ValueError | TypeError | AttributeError.

(** How a call ends: it returns, it raises, or (for a loop run with a bound
    on its iterations) it is still running when the bound is reached. *)
Inductive outcome (A : Type) : Type :=
| Ret (a : A)
| Raise (e : exn)
| OutOfFuel.
Arguments Ret {A} a.
Arguments Raise {A} e.
Arguments OutOfFuel {A}.

Definition M (S A : Type) : Type := S -> S * outcome A.

Definition ret {S A} (a : A) : M S A := fun s => (s, Ret a).
Definition raise {S A} (e : exn) : M S A := fun s => (s, Raise e).
Definition out_of_fuel {S A} : M S A := fun s => (s, OutOfFuel).

Definition bind {S A B} (c : M S A) (k : A -> M S B) : M S B :=
  fun s =>
    match c s with
    | (s', Ret a) => k a s'
    | (s', Raise e) => (s', Raise e)
    | (s', OutOfFuel) => (s', OutOfFuel)
    end.

Definition outcome_map {A B} (f : A -> B) (o : outcome A) : outcome B :=
  match o with
  | Ret a => Ret (f a)
  | Raise e => Raise e
  | OutOfFuel => OutOfFuel
  end.

Definition gets {S A} (f : S -> A) : M S A := fun s => (s, Ret (f s)).
Definition modify {S} (f : S -> S) : M S unit := fun s => (f s, Ret tt).

(** The result of a pure library call that may raise. *)
Definition lift {S A} (r : exn + A) : M S A :=
  match r with
  | inl e => raise e
  | inr a => ret a
  end.

Declare Scope monad_scope.
Delimit Scope monad_scope with monad.
Notation "x <- c ;; k" := (bind c (fun x => k))
  (at level 61, c at next level, right associativity) : monad_scope.
Notation "c ;;; k" := (bind c (fun _ => k))
  (at level 61, right associativity) : monad_scope.
Open Scope monad_scope.

(** [for a in l: acc = body(acc, a)] *)
Fixpoint for_each {S A B} (l : list A) (body : B -> A -> M S B) (acc : B)
  : M S B :=
  match l with
  | [] => ret acc
  | a :: l' => acc' <- body acc a ;; for_each l' body acc'
  end.

(** [for _ in range(n): body] *)
Fixpoint for_range {S} (n : nat) (body : M S unit) : M S unit :=
  match n with
  | O => ret tt
  | S n' => body ;;; for_range n' body
  end.

(* ===================================================================== *)
(** ** NeuralBase: feature expansion and net input *)
(* ===================================================================== *)

Module NeuralBase.
Section Expansion.

(** The columns that an expansion of degree 2 or more appends to a row,
    and how many they are for a row of a given length.  [base.py] is not
    among the sources and the specification leaves the combination policy
    open, so both are parameters. *)
Variable poly_terms : Z -> vec -> vec.
Variable poly_width : Z -> nat -> nat.

Definition expand_row (degree : Z) (bias : bool) (r : vec) : vec :=
  (if bias then [1] else []) ++ r ++
  (if (degree =? 1)%Z then [] else poly_terms degree r).

(** Modelled from the spec: [NeuralBase.make_polynomial], defined in
    [neptunelearn/linear_models/base.py], which is not among the sources.
    "For degree = 1 this is the identity expansion (optionally prefixed by
    a constant-1 bias column).  Higher-degree expansion is defined to
    append polynomial combinations of input features up to the given
    degree.  Fails with an input-shape error if degree < 1." *)
Definition make_polynomial (X : ndarray2) (degree : Z) (bias : bool)
  : exn + ndarray2 :=
  if (degree <? 1)%Z then inl ValueError
  else inr {| shape1 := (if bias then 1 else 0) + shape1 X +
                        (if (degree =? 1)%Z then 0
                         else poly_width degree (shape1 X));
              rows := map (expand_row degree bias) (rows X) |}.

End Expansion.

(** Modelled from the spec: [NeuralBase.net_input], defined in [base.py],
    which is not among the sources.  "Returns X . thetas (dot product per
    row), requiring column count of X equal to length of thetas; fails with
    a dimension-mismatch error otherwise."  On one row: *)
Definition net_input (x thetas : vec) : exn + Qc :=
  if (length x =? length thetas)%nat then inr (dot x thetas)
  else inl ValueError.

(** and on a design matrix, one net input per row. *)
Definition net_input_2d (X : ndarray2) (thetas : vec) : exn + vec :=
  if (shape1 X =? length thetas)%nat
  then inr (map (fun r => dot r thetas) (rows X))
  else inl ValueError.

End NeuralBase.

(* ===================================================================== *)
(** ** pandas: the data frame of the weight trajectory *)
(* ===================================================================== *)

Record DataFrame : Type := mk_DataFrame {
  df_index : list Z;
  df_columns : list string;
  df_values : list vec
}.

(** [pd.DataFrame.from_dict(d, orient="index", columns=cols)] on a dict
    from keys to 1-D arrays (kept as the list of its items, in insertion
    order): one row per key.  pandas raises [ValueError] ("3 columns passed,
    passed data had 2 columns") when the rows do not have one entry per
    column name. *)
Definition DataFrame_from_dict (d : list (Z * vec)) (cols : list string)
  : exn + DataFrame :=
  if forallb (fun kv => (length (snd kv) =? length cols)%nat) d
  then inr {| df_index := map fst d; df_columns := cols;
              df_values := map snd d |}
  else inl ValueError.

(* ===================================================================== *)
(** ** class Perceptron *)
(* ===================================================================== *)

Module Perceptron.

(** The attributes of an instance.  [errors] is no field of the dataclass:
    it exists only once [fit] has assigned it. *)
Record t : Type := mk {
  thetas : vec;
  weights : option DataFrame;
  degree : Z;
  bias : bool;
  tol : Qc;
  errors : option (list nat)
}.

Definition set_thetas (v : vec) (self : t) : t :=
  mk v (weights self) (degree self) (bias self) (tol self) (errors self).
Definition set_weights (w : option DataFrame) (self : t) : t :=
  mk (thetas self) w (degree self) (bias self) (tol self) (errors self).
Definition set_errors (e : option (list nat)) (self : t) : t :=
  mk (thetas self) (weights self) (degree self) (bias self) (tol self) e.

(** [Perceptron(degree, bias, tol)]: [thetas] is the empty array and
    [weights] is [None]. *)
Definition init (degree : Z) (bias : bool) (tol : Qc) : t :=
  mk [] None degree bias tol None.

(** The default of [tol] is written [10e-6] in the source: ten millionths. *)
Definition default_tol : Qc := Q2Qc (10 # 1000000).
Definition default : t := init 1 true default_tol.

(** [self.errors.append(error)] *)
Definition errors_append (error : nat) : M t unit :=
  es <- gets errors ;;
  match es with
  | Some l => modify (set_errors (Some (l ++ [error])))
  | None => raise AttributeError
  end.

(** [predict]: [1 if self.net_input(X, self.thetas) >= 0 else -1], on one
    row of the design matrix (the result is one [int], and this is how
    [fit] calls it). *)
Definition predict (X : vec) : M t Z :=
  th <- gets thetas ;;
  z <- lift (NeuralBase.net_input X th) ;;
  ret (if Qc_leb 0 z then 1 else -1)%Z.

(** The body of [for xi, target in zip(X, y)], with the local counter
    [error] passed along. *)
Definition visit (error : nat) (sample : vec * Qc) : M t nat :=
  let (xi, target) := sample in
  p <- predict xi ;;
  if negb (Qc_eqb target (Z2Qc p)) then
    th <- gets thetas ;;
    modify (set_thetas (vadd th (vscale target xi))) ;;;
    ret (error + 1)%nat
  else ret error.

(** [while not converged: ...], given at most [fuel] epochs.  The locals
    [index] and [weights] (a dict, kept as the list of its items) are passed
    along; the loop returns [weights]. *)
Fixpoint while_not_converged (fuel : nat) (X : ndarray2) (y : vec)
    (index : Z) (weights : list (Z * vec)) : M t (list (Z * vec)) :=
  match fuel with
  | O => out_of_fuel
  | S fuel' =>
    let error := 0%nat in
    let index := (index + 1)%Z in
    prev_weights <- gets thetas ;;
    error <- for_each (combine (rows X) y) visit error ;;
    errors_append error ;;;
    th <- gets thetas ;;
    let weights := weights ++ [(index, th)] in
    tol <- gets tol ;;
    if norm_le (vsub th prev_weights) tol then ret weights
    else while_not_converged fuel' X y index weights
  end.

Definition weight_columns : list string :=
  ["bias"; "weight1"; "weight2"]%string.

Section Fit.
Variable poly_terms : Z -> vec -> vec.
Variable poly_width : Z -> nat -> nat.

(** The design matrix that [fit] builds from the raw input. *)
Definition design (self : t) (X : ndarray2) : exn + ndarray2 :=
  NeuralBase.make_polynomial poly_terms poly_width X (degree self) (bias self).

Definition fit (fuel : nat) (X : ndarray2) (y : vec) : M t unit :=
  degree <- gets degree ;;
  bias <- gets bias ;;
  X <- lift (NeuralBase.make_polynomial poly_terms poly_width X degree bias) ;;
  modify (set_thetas (zeros (shape1 X))) ;;;
  modify (set_errors (Some [])) ;;;
  weights <- while_not_converged fuel X y (-1) [] ;;
  df <- lift (DataFrame_from_dict weights weight_columns) ;;
  modify (set_weights (Some df)).

End Fit.

End Perceptron.


(** *** The training run, as the specification words it

    "Each epoch: for every sample in original order, predict; if the
    prediction disagrees with the true label, apply the update
    [thetas += label * xi].  Count mistakes per epoch into history.  Stop
    when the Euclidean norm of the change in weights between consecutive
    epochs is <= the tolerance." *)

Module PerceptronSpec.

(** The decision rule: [+1] when the net input is [>= 0], else [-1]. *)
Definition decide (z : Qc) : Z := if Qc_leb 0 z then 1%Z else (-1)%Z.

Definition classify (thetas x : vec) : Z := decide (dot x thetas).

(** The (sample, label) pairs of the training data, in original order. *)
Definition samples (D : ndarray2) (y : vec) : list (vec * Qc) :=
  combine (rows D) y.

(** One epoch from the weights [thetas]: the weights after it and the
    number of samples that were misclassified when they were visited. *)
Fixpoint epoch (thetas : vec) (l : list (vec * Qc)) : vec * nat :=
  match l with
  | [] => (thetas, 0%nat)
  | (xi, label) :: l' =>
    if Qc_eqb label (Z2Qc (classify thetas xi)) then epoch thetas l'
    else let (th, k) := epoch (vadd thetas (vscale label xi)) l' in (th, S k)
  end.

(** The weights after [k] epochs, from the zero vector of [d] entries. *)
Fixpoint trajectory (l : list (vec * Qc)) (d k : nat) : vec :=
  match k with
  | O => zeros d
  | S k' => fst (epoch (trajectory l d k') l)
  end.

(** The number of mistakes of epoch [k] (the first epoch is epoch 0). *)
Definition mistakes (l : list (vec * Qc)) (d k : nat) : nat :=
  snd (epoch (trajectory l d k) l).

(** Epoch [k] changed the weights by at most [tol] in Euclidean norm. *)
Definition converged_at (tol : Qc) (l : list (vec * Qc)) (d k : nat) : bool :=
  norm_le (vsub (trajectory l d (S k)) (trajectory l d k)) tol.

(** The first epoch among [j, j+1, ..., j+fuel-1] that passes the test. *)
Fixpoint first_converged (tol : Qc) (l : list (vec * Qc)) (d fuel j : nat)
  : option nat :=
  match fuel with
  | O => None
  | S fuel' =>
    if converged_at tol l d j then Some j
    else first_converged tol l d fuel' (S j)
  end.

(** The weight trajectory kept by [fit]: the snapshots of [n] epochs from
    epoch [j] on, numbered from [idx + 1]. *)
Definition snapshots (l : list (vec * Qc)) (d : nat) (idx : Z) (j n : nat)
  : list (Z * vec) :=
  map (fun i => ((idx + 1 + Z.of_nat i)%Z, trajectory l d (S (j + i))))
      (seq 0 n).

(** The instance after [k] epochs of a run that started from [self]. *)
Definition after (self : Perceptron.t) (l : list (vec * Qc)) (d k : nat)
  : Perceptron.t :=
  Perceptron.set_errors (Some (map (mistakes l d) (seq 0 k)))
    (Perceptron.set_thetas (trajectory l d k) self).

(** Labels are [+1] or [-1]. *)
Definition pm1 (t : Qc) : Prop := t = 1 \/ t = - (1).

(** [w] separates the samples with margin [gamma]: every sample lies on
    the side of its label, at functional distance at least [gamma]. *)
Definition separates (w : vec) (gamma : Qc) (l : list (vec * Qc)) : Prop :=
  Forall (fun s => length (fst s) = length w /\
                   gamma <= snd s * dot (fst s) w) l.

(** Linearly separable: some [w] separates with a positive margin. *)
Definition linearly_separable (d : nat) (l : list (vec * Qc)) : Prop :=
  exists w gamma, length w = d /\ 0 < gamma /\ separates w gamma l.

(** The squared distance of [thetas] from [u], and the sum of the squared
    norms of the samples: the measures of the convergence argument. *)
Definition potential (u thetas : vec) : Qc :=
  dot (vsub thetas u) (vsub thetas u).

Fixpoint sumsq (l : list (vec * Qc)) : Qc :=
  match l with
  | [] => 0
  | s :: l' => dot (fst s) (fst s) + sumsq l'
  end.

(** No sample is misclassified by [thetas]. *)
Definition classifies_all (thetas : vec) (l : list (vec * Qc)) : Prop :=
  Forall (fun s => Z2Qc (classify thetas (fst s)) = snd s) l.

End PerceptronSpec.

(* ===================================================================== *)
(** ** The perceptron with a learning rate

    The note at the head of the source file and the specification speak of
    a learning rate [eta] that the class does not have.  This is that
    program: [Perceptron.fit] with the one update line changed to
    [self.thetas += eta * target * xi]. *)
(* ===================================================================== *)

Module PerceptronEta.
Import Perceptron.

Definition visit (eta : Qc) (error : nat) (sample : vec * Qc) : M t nat :=
  let (xi, target) := sample in
  p <- predict xi ;;
  if negb (Qc_eqb target (Z2Qc p)) then
    th <- gets thetas ;;
    modify (set_thetas (vadd th (vscale (eta * target) xi))) ;;;
    ret (error + 1)%nat
  else ret error.

Fixpoint while_not_converged (eta : Qc) (fuel : nat) (X : ndarray2) (y : vec)
    (index : Z) (weights : list (Z * vec)) : M t (list (Z * vec)) :=
  match fuel with
  | O => out_of_fuel
  | S fuel' =>
    let error := 0%nat in
    let index := (index + 1)%Z in
    prev_weights <- gets thetas ;;
    error <- for_each (combine (rows X) y) (visit eta) error ;;
    errors_append error ;;;
    th <- gets thetas ;;
    let weights := weights ++ [(index, th)] in
    tol <- gets tol ;;
    if norm_le (vsub th prev_weights) tol then ret weights
    else while_not_converged eta fuel' X y index weights
  end.

Section Fit.
Variable poly_terms : Z -> vec -> vec.
Variable poly_width : Z -> nat -> nat.

Definition fit (eta : Qc) (fuel : nat) (X : ndarray2) (y : vec) : M t unit :=
  degree <- gets degree ;;
  bias <- gets bias ;;
  X <- lift (NeuralBase.make_polynomial poly_terms poly_width X degree bias) ;;
  modify (set_thetas (zeros (shape1 X))) ;;;
  modify (set_errors (Some [])) ;;;
  weights <- while_not_converged eta fuel X y (-1) [] ;;
  df <- lift (DataFrame_from_dict weights weight_columns) ;;
  modify (set_weights (Some df)).

End Fit.

(** The instance with another tolerance. *)
Definition with_tol (tol' : Qc) (self : t) : t :=
  mk (thetas self) (weights self) (degree self) (bias self) tol'
     (errors self).

(** The instance with weights and tolerance scaled by [eta]. *)
Definition scaled (eta : Qc) (self : t) : t :=
  mk (vscale eta (thetas self)) (weights self) (degree self) (bias self)
     (eta * tol self) (errors self).

(** The items of the [weights] dict, each snapshot scaled by [eta]. *)
Definition scaled_items (eta : Qc) (w : list (Z * vec)) : list (Z * vec) :=
  map (fun kv => (fst kv, vscale eta (snd kv))) w.

End PerceptronEta.

(* ===================================================================== *)
(** ** numpy: what [AdalineGD] needs of it *)
(* ===================================================================== *)

(** [u - v] with broadcasting: shapes [(m,)] and [(n,)] go together when
    [m = n] or one of them is 1. *)
Definition broadcast_sub (u v : vec) : exn + vec :=
  if (length u =? length v)%nat then inr (vsub u v)
  else match u, v with
       | [a], _ => inr (map (fun b => a - b) v)
       | _, [b] => inr (map (fun a => a - b) u)
       | _, _ => inl ValueError
       end.

(** [X.T] *)
Definition transpose (X : ndarray2) : ndarray2 :=
  {| shape1 := shape0 X;
     rows := map (fun j => map (fun r => nth j r 0) (rows X))
                 (seq 0 (shape1 X)) |}.

(** [c * X] *)
Definition mscale (c : Qc) (X : ndarray2) : ndarray2 :=
  {| shape1 := shape1 X; rows := map (vscale c) (rows X) |}.

(** [A @ v] for a 2-D [A] and a 1-D [v]. *)
Definition matvec (A : ndarray2) (v : vec) : exn + vec :=
  if (shape1 A =? length v)%nat
  then inr (map (fun r => dot r v) (rows A))
  else inl ValueError.

(** [v / c] *)
Definition vdiv (v : vec) (c : Qc) : vec := map (fun a => a / c) v.

(** [np.where(z >= 0.0, 1, -1)] *)
Definition where_ge0 (z : vec) : list Z :=
  map (fun a => if Qc_leb 0 a then 1%Z else (-1)%Z) z.

(* ===================================================================== *)
(** ** class AdalineGD *)
(* ===================================================================== *)

Module AdalineGD.

Record t : Type := mk {
  eta : Qc;
  niter : Z;
  cost : list Qc;
  bias : bool;
  thetas : option vec;
  degree : Z
}.

Definition set_thetas (v : option vec) (self : t) : t :=
  mk (eta self) (niter self) (cost self) (bias self) v (degree self).
Definition set_cost (c : list Qc) (self : t) : t :=
  mk (eta self) (niter self) c (bias self) (thetas self) (degree self).
Definition set_bias (b : bool) (self : t) : t :=
  mk (eta self) (niter self) (cost self) b (thetas self) (degree self).

(** [__init__(eta=0.01, niter=50, bias=True)] *)
Definition init (eta : Qc) (niter : Z) (bias : bool) : t :=
  mk eta niter [] bias None 1.

Definition default : t := init (Q2Qc (1 # 100)) 50 true.

(** [activation]: the identity. *)
Definition activation (X : vec) : vec := X.

(** [self.net_input(X, self.thetas)]; the dot product with [None] is a
    [TypeError]. *)
Definition net_input_self (X : ndarray2) (thetas : option vec) : exn + vec :=
  match thetas with
  | Some th => NeuralBase.net_input_2d X th
  | None => inl TypeError
  end.

(** The body of [for _ in range(self.niter)].  In
    [self.eta * X.T @ error / X.shape[0]] the operators associate to the
    left: [((self.eta * X.T) @ error) / X.shape[0]]. *)
Definition iteration (X : ndarray2) (y : vec) (n : nat) : M t unit :=
  th <- gets thetas ;;
  net_input <- lift (net_input_self X th) ;;
  error <- lift (broadcast_sub y (activation net_input)) ;;
  let loss := dot error error / (Z2Qc 2 * nat2Qc n) in
  eta <- gets eta ;;
  g <- lift (matvec (mscale eta (transpose X)) error) ;;
  modify (set_thetas
            (option_map (fun th => vadd th (vdiv g (nat2Qc (shape0 X)))) th)) ;;;
  c <- gets cost ;;
  modify (set_cost (c ++ [loss])).

Section Fit.
Variable poly_terms : Z -> vec -> vec.
Variable poly_width : Z -> nat -> nat.

(** The design matrix that [fit] builds from the raw input. *)
Definition design (self : t) (X : ndarray2) : exn + ndarray2 :=
  NeuralBase.make_polynomial poly_terms poly_width X (degree self) true.

Definition fit (X : ndarray2) (y : vec) : M t unit :=
  modify (set_thetas (Some (zeros (1 + shape1 X)))) ;;;
  let n := shape0 X in
  degree <- gets degree ;;
  X <- lift (NeuralBase.make_polynomial poly_terms poly_width X degree true) ;;
  niter <- gets niter ;;
  for_range (Z.to_nat niter) (iteration X y n).

End Fit.

(** [predict(X, thetas)]: with [thetas=None] the weights of the instance
    are used. *)
Definition predict (X : ndarray2) (thetas : option vec) : M t (list Z) :=
  match thetas with
  | None =>
    th <- gets AdalineGD.thetas ;;
    z <- lift (net_input_self X th) ;;
    ret (where_ge0 (activation z))
  | Some th =>
    z <- lift (net_input_self X (Some th)) ;;
    ret (where_ge0 (activation z))
  end.

End AdalineGD.

(** *** One iteration of batch gradient descent, as the specification
    words it: "compute error = target - activation(net_input), accumulate
    scalar cost = (error^T . error) / (2n), update
    [thetas += eta * X^T . error / n]". *)

Module AdalineSpec.

Definition error_of (D : ndarray2) (y thetas : vec) : vec :=
  vsub y (map (fun r => dot r thetas) (rows D)).

Definition cost_of (D : ndarray2) (y thetas : vec) : Qc :=
  let e := error_of D y thetas in dot e e / (Z2Qc 2 * nat2Qc (shape0 D)).

(** [X^T . e]: the sum over the samples of [e_i] times row [i]. *)
Fixpoint Xt_dot (d : nat) (rs : list vec) (e : vec) : vec :=
  match rs, e with
  | r :: rs', a :: e' => vadd (vscale a r) (Xt_dot d rs' e')
  | _, _ => zeros d
  end.

Definition update (eta : Qc) (D : ndarray2) (y thetas : vec) : vec :=
  vadd thetas
       (vscale (eta / nat2Qc (shape0 D))
               (Xt_dot (shape1 D) (rows D) (error_of D y thetas))).

(** The weights after [k] iterations, from the zero vector. *)
Fixpoint trajectory (eta : Qc) (D : ndarray2) (y : vec) (k : nat) : vec :=
  match k with
  | O => zeros (shape1 D)
  | S k' => update eta D y (trajectory eta D y k')
  end.

(** The costs of iterations [0 .. k-1]. *)
Definition costs (eta : Qc) (D : ndarray2) (y : vec) (k : nat) : list Qc :=
  map (fun i => cost_of D y (trajectory eta D y i)) (seq 0 k).

End AdalineSpec.


(* ===================================================================== *)
(** ** Data of the scenarios *)
(* ===================================================================== *)

(** Degree 1 needs no polynomial terms. *)
Definition no_poly_terms : Z -> vec -> vec := fun _ _ => [].
Definition no_poly_width : Z -> nat -> nat := fun _ _ => 0%nat.

(** The scenario of the specification: logical AND, labels in [+1, -1]. *)
Definition X_and : ndarray2 := mk_ndarray2 2 [[0; 0]; [0; 1]; [1; 0]; [1; 1]].
Definition y_and : vec := [Z2Qc (-1); Z2Qc (-1); Z2Qc (-1); 1].
Definition D_and : ndarray2 :=
  mk_ndarray2 3 [[1; 0; 0]; [1; 0; 1]; [1; 1; 0]; [1; 1; 1]].

(** Two samples, one of each label, one unit apart. *)
Definition X_unit : ndarray2 := mk_ndarray2 2 [[0; 0]; [1; 0]].
Definition D_unit : ndarray2 := mk_ndarray2 3 [[1; 0; 0]; [1; 1; 0]].
Definition y_pair : vec := [Z2Qc (-1); 1].

(** The same, one millionth apart. *)
Definition millionth : Qc := Q2Qc (1 # 1000000).
Definition X_close : ndarray2 := mk_ndarray2 2 [[0; 0]; [millionth; 0]].
Definition D_close : ndarray2 :=
  mk_ndarray2 3 [[1; 0; 0]; [1; millionth; 0]].

(** A small Adaline: three iterations at learning rate one tenth. *)
Definition adaline_3 : AdalineGD.t := AdalineGD.init (Q2Qc (1 # 10)) 3 true.

(** A computation on an [AdalineGD] instance ignores the bias flag: with
    the flag set to any [b] it ends the same way, in the same instance up
    to that flag. *)
Definition ignores_bias {A} (c : M AdalineGD.t A) : Prop :=
  forall b self,
    c (AdalineGD.set_bias b self) =
    (AdalineGD.set_bias b (fst (c self)), snd (c self)).

(* ===================================================================== *)
(** ** Frames and counts used by the further properties *)
(* ===================================================================== *)

(** A computation leaves a part [proj] of the instance as it was, however
    it ends. *)
Definition preserves {S A K} (proj : S -> K) (c : M S A) : Prop :=
  forall s, proj (fst (c s)) = proj s.

(** The hyperparameters of the two classes. *)
Definition perceptron_hyper (self : Perceptron.t) : Z * bool * Qc :=
  (Perceptron.degree self, Perceptron.bias self, Perceptron.tol self).

Definition adaline_hyper (self : AdalineGD.t) : Qc * Z * bool * Z :=
  (AdalineGD.eta self, AdalineGD.niter self, AdalineGD.bias self,
   AdalineGD.degree self).

(** The number of samples whose label is 0. *)
Definition zero_labels (l : list (vec * Qc)) : nat :=
  length (filter (fun s => Qc_eqb (snd s) 0) l).

(* ===================================================================== *)
(** ** plot_decision_boundary

    The method is the same in both classes but for the marker of the
    positive samples (["ro"] in [Perceptron], ["rx"] in [AdalineGD]); it
    reads nothing of [self].  Its effect is a sequence of calls
    [plt.plot(x, y, fmt)], kept here as the list of their arguments. *)
(* ===================================================================== *)

Module Pyplot.

(** The calls [plt.plot(x, y, fmt)] made so far, oldest first. *)
Definition canvas : Type := list (Qc * Qc * string).

(** What the method can raise: [IndexError] from a subscript,
    [ValueError] from [np.amin] and [np.amax] of an array without
    elements, and the division by a zero weight.  (Python numbers raise
    [ZeroDivisionError] there; numpy scalars give [inf] or [nan], which the
    rationals do not have: the model stops in both cases.) *)
Inductive error : Type := IndexError | EmptyReduction | DivisionByZero.

Definition P (A : Type) : Type := canvas -> canvas * (error + A).

Definition pret {A} (a : A) : P A := fun c => (c, inr a).

Definition pbind {A B} (m : P A) (k : A -> P B) : P B :=
  fun c =>
    match m c with
    | (c', inr a) => k a c'
    | (c', inl e) => (c', inl e)
    end.

Definition plift {A} (r : error + A) : P A := fun c => (c, r).

Declare Scope plot_scope.
Delimit Scope plot_scope with plot.
Notation "x <- c ;; k" := (pbind c (fun x => k))
  (at level 61, c at next level, right associativity) : plot_scope.
Notation "c ;;; k" := (pbind c (fun _ => k))
  (at level 61, right associativity) : plot_scope.

(** [plt.plot(x, y, fmt)] *)
Definition plot (x y : Qc) (fmt : string) : P unit :=
  fun c => (c ++ [(x, y, fmt)], inr tt).

(** [for a in l: body(a)] *)
Fixpoint each {A} (l : list A) (body : A -> P unit) : P unit :=
  match l with
  | [] => pret tt
  | a :: l' => (body a ;;; each l' body)%plot
  end.

(** [v[i]] *)
Definition index (v : vec) (i : nat) : error + Qc :=
  match nth_error v i with
  | Some a => inr a
  | None => inl IndexError
  end.

(** [a / b] *)
Definition div (a b : Qc) : error + Qc :=
  if Qc_eqb b 0 then inl DivisionByZero else inr (a / b).

Definition Qc_min (x y : Qc) : Qc := if Qc_leb x y then x else y.
Definition Qc_max (x y : Qc) : Qc := if Qc_leb x y then y else x.

(** [np.amin(a)] and [np.amax(a)] over all the elements of [a]. *)
Definition amin (l : vec) : error + Qc :=
  match l with
  | [] => inl EmptyReduction
  | a :: l' => inr (fold_left Qc_min l' a)
  end.

Definition amax (l : vec) : error + Qc :=
  match l with
  | [] => inl EmptyReduction
  | a :: l' => inr (fold_left Qc_max l' a)
  end.

(** The elements of [inputs[:, :1]]. *)
Definition first_column (inputs : ndarray2) : vec :=
  flat_map (firstn 1) (rows inputs).

(** [np.linspace(start, stop)]: 50 samples, [start + k * step] with
    [step = (stop - start) / 49], the last one set to [stop]. *)
Definition linspace (start stop : Qc) : vec :=
  map (fun k => start + nat2Qc k * ((stop - start) / nat2Qc 49)) (seq 0 49)
  ++ [stop].

(** The body of the first loop. *)
Definition plot_sample (positive : string) (sample : vec * Qc) : P unit :=
  let (input, target) := sample in
  (x0 <- plift (index input 0) ;;
   x1 <- plift (index input 1) ;;
   plot x0 x1 (if Qc_eqb target 1 then positive else "bo"%string))%plot.

Definition plot_decision_boundary (positive : string)
    (inputs : ndarray2) (targets weights : vec) : P unit :=
  (each (combine (rows inputs) targets) (plot_sample positive) ;;;
   w1 <- plift (index weights 1) ;;
   w2 <- plift (index weights 2) ;;
   slope <- plift (div (- w1) w2) ;;
   w0 <- plift (index weights 0) ;;
   w2' <- plift (index weights 2) ;;
   intercept <- plift (div (- w0) w2') ;;
   lo <- plift (amin (first_column inputs)) ;;
   hi <- plift (amax (first_column inputs)) ;;
   each (linspace lo hi)
        (fun i => plot i (slope * i + intercept) "ko"%string))%plot.

(** [Perceptron.plot_decision_boundary] and
    [AdalineGD.plot_decision_boundary]. *)
Definition Perceptron_plot_decision_boundary :=
  plot_decision_boundary "ro"%string.
Definition AdalineGD_plot_decision_boundary :=
  plot_decision_boundary "rx"%string.

(** What the first loop draws for a sample. *)
Definition marker (positive : string) (sample : vec * Qc)
  : Qc * Qc * string :=
  (nth 0 (fst sample) 0, nth 1 (fst sample) 0,
   if Qc_eqb (snd sample) 1 then positive else "bo"%string).

End Pyplot.

(** Labels coded 0 and 1, and a tolerance below zero. *)
Definition y_01 : vec := [0; 0; 0; 1].
Definition perceptron_negative_tol : Perceptron.t :=
  Perceptron.init 1 true (Z2Qc (-1)).

(** No sample at all. *)
Definition X_none : ndarray2 := mk_ndarray2 2 [].
Definition D_none : ndarray2 := mk_ndarray2 3 [].

(* ===================================================================== *)
(** * Verification *)
(* ===================================================================== *)

(** ** The ordered field [Qc] *)

Lemma Qc_eq_this (x y : Qc) : x = y <-> (this x == this y)%Q.
Proof. split; [intros ->; reflexivity | apply Qc_is_canon]. Qed.

Lemma Qc_leb_le (x y : Qc) : Qc_leb x y = true <-> x <= y.
Proof. unfold Qc_leb, Qcle. apply Qle_bool_iff. Qed.

Lemma Qc_leb_gt (x y : Qc) : Qc_leb x y = false <-> y < x.
Proof.
  split; intros H.
  - apply Qcnot_le_lt. intros L. apply Qc_leb_le in L. congruence.
  - destruct (Qc_leb x y) eqn:E; [|reflexivity].
    apply Qc_leb_le in E. exfalso. exact (Qclt_not_le _ _ H E).
Qed.

Lemma Qc_eqb_eq (x y : Qc) : Qc_eqb x y = true <-> x = y.
Proof.
  unfold Qc_eqb. rewrite Qeq_bool_iff. symmetry. apply Qc_eq_this.
Qed.

Lemma Qc_eqb_neq (x y : Qc) : Qc_eqb x y = false <-> x <> y.
Proof.
  rewrite <- Qc_eqb_eq. destruct (Qc_eqb x y); split; congruence.
Qed.

Lemma Qc_eqb_refl (x : Qc) : Qc_eqb x x = true.
Proof. now apply Qc_eqb_eq. Qed.

(** Goals of the ordered field [Qc] are sent to [Q], where [lra] and [nra]
    work. *)
Ltac qc2q :=
  repeat match goal with
  | H : @eq Qc _ _ |- _ => apply Qc_eq_this in H
  | H : ~ @eq Qc _ _ |- _ => rewrite Qc_eq_this in H
  | |- @eq Qc _ _ => apply Qc_eq_this
  | |- ~ @eq Qc _ _ => rewrite Qc_eq_this
  end;
  unfold Qcle, Qclt, Qcminus, Qcplus, Qcmult, Qcopp, Z2Qc, Q2Qc in *;
  cbn [this] in *;
  repeat match goal with
  | H : context [Qred ?q] |- _ => rewrite (Qred_correct q) in H
  | |- context [Qred ?q] => rewrite (Qred_correct q)
  end.

Ltac qc_lra := qc2q; lra.
Ltac qc_nra := qc2q; nra.

Lemma Qc_leb_cases (x y : Qc) :
  (Qc_leb x y = true /\ x <= y) \/ (Qc_leb x y = false /\ y < x).
Proof.
  destruct (Qc_leb x y) eqn:E.
  - left. split; [reflexivity | now apply Qc_leb_le].
  - right. split; [reflexivity | now apply Qc_leb_gt].
Qed.

(** ** Arrays *)

Lemma length_zeros n : length (zeros n) = n.
Proof. apply repeat_length. Qed.

Lemma length_vadd u v : length u = length v -> length (vadd u v) = length u.
Proof.
  revert v. induction u as [|a u IH]; intros [|b v] H; simpl in *; try easy.
  f_equal. apply IH. lia.
Qed.

Lemma length_vsub u v : length u = length v -> length (vsub u v) = length u.
Proof.
  revert v. induction u as [|a u IH]; intros [|b v] H; simpl in *; try easy.
  f_equal. apply IH. lia.
Qed.

Lemma length_vscale c v : length (vscale c v) = length v.
Proof. apply length_map. Qed.

Lemma dot_comm u v : dot u v = dot v u.
Proof.
  revert v. induction u as [|a u IH]; intros [|b v]; simpl; try reflexivity.
  rewrite IH. ring.
Qed.

Lemma dot_vadd_l u v w :
  length u = length v -> dot (vadd u v) w = dot u w + dot v w.
Proof.
  revert v w. induction u as [|a u IH]; intros [|b v] [|c w] H;
    simpl in *; try discriminate; try ring.
  rewrite IH by lia. ring.
Qed.

Lemma dot_vsub_l u v w :
  length u = length v -> dot (vsub u v) w = dot u w - dot v w.
Proof.
  revert v w. induction u as [|a u IH]; intros [|b v] [|c w] H;
    simpl in *; try discriminate; try ring.
  rewrite IH by lia. ring.
Qed.

Lemma dot_vscale_l c u w : dot (vscale c u) w = c * dot u w.
Proof.
  revert w. induction u as [|a u IH]; intros [|b w]; simpl; try ring.
  unfold vscale in IH. rewrite IH. ring.
Qed.

Lemma dot_vadd_r u v w :
  length v = length w -> dot u (vadd v w) = dot u v + dot u w.
Proof.
  intros H. rewrite dot_comm, dot_vadd_l by exact H.
  now rewrite (dot_comm v), (dot_comm w).
Qed.

Lemma dot_vsub_r u v w :
  length v = length w -> dot u (vsub v w) = dot u v - dot u w.
Proof.
  intros H. rewrite dot_comm, dot_vsub_l by exact H.
  now rewrite (dot_comm v), (dot_comm w).
Qed.

Lemma dot_vscale_r c u w : dot u (vscale c w) = c * dot u w.
Proof. now rewrite dot_comm, dot_vscale_l, dot_comm. Qed.

Lemma dot_zeros_r u n : dot u (zeros n) = 0.
Proof.
  revert n. induction u as [|a u IH]; intros [|n]; simpl; try reflexivity.
  change (repeat 0 n) with (zeros n). rewrite IH. ring.
Qed.

Lemma dot_zeros_l u n : dot (zeros n) u = 0.
Proof. now rewrite dot_comm, dot_zeros_r. Qed.

Lemma dot_self_nonneg u : 0 <= dot u u.
Proof.
  induction u as [|a u IH]; simpl.
  - apply Qcle_refl.
  - qc_nra.
Qed.

Lemma vsub_self_dot v : dot (vsub v v) (vsub v v) = 0.
Proof.
  induction v as [|a v IH]; simpl; [reflexivity|].
  rewrite IH. ring.
Qed.

Lemma norm_le_true v tol :
  norm_le v tol = true <-> 0 <= tol /\ dot v v <= tol * tol.
Proof.
  unfold norm_le. rewrite andb_true_iff, !Qc_leb_le. tauto.
Qed.

Lemma norm_le_zero_change v tol : 0 <= tol -> norm_le (vsub v v) tol = true.
Proof.
  intros H. apply norm_le_true. split; [exact H|].
  rewrite vsub_self_dot. qc_nra.
Qed.

(** ** Perceptron: the methods run as the specification words them *)

Import Perceptron PerceptronSpec.

Lemma set_thetas_same self : set_thetas (thetas self) self = self.
Proof. now destruct self. Qed.

Lemma predict_run self x :
  length x = length (thetas self) ->
  predict x self = (self, Ret (classify (thetas self) x)).
Proof.
  intros H. unfold predict, bind, gets, lift, NeuralBase.net_input.
  apply Nat.eqb_eq in H. now rewrite H.
Qed.

Lemma predict_mismatch self x :
  length x <> length (thetas self) ->
  predict x self = (self, Raise ValueError).
Proof.
  intros H. unfold predict, bind, gets, lift, NeuralBase.net_input.
  apply Nat.eqb_neq in H. now rewrite H.
Qed.

Lemma visit_run self e x t :
  length x = length (thetas self) ->
  visit e (x, t) self =
  if Qc_eqb t (Z2Qc (classify (thetas self) x)) then (self, Ret e)
  else (set_thetas (vadd (thetas self) (vscale t x)) self, Ret (e + 1)%nat).
Proof.
  intros H. unfold visit, bind. rewrite (predict_run _ _ H).
  now destruct (Qc_eqb t (Z2Qc (classify (thetas self) x))).
Qed.

Lemma length_epoch l : forall th,
  Forall (fun s => length (fst s) = length th) l ->
  length (fst (epoch th l)) = length th.
Proof.
  induction l as [|[x t] l IH]; intros th H; [reflexivity|].
  inversion H as [|? ? Hx Hl]; subst. simpl in *.
  destruct (Qc_eqb t (Z2Qc (classify th x))).
  - now apply IH.
  - assert (L : length (vadd th (vscale t x)) = length th)
      by (apply length_vadd; now rewrite length_vscale).
    specialize (IH (vadd th (vscale t x))).
    destruct (epoch (vadd th (vscale t x)) l) as [th' k]. simpl in *.
    rewrite <- L. apply IH. now rewrite L.
Qed.

(** The [for] loop over the samples is one [epoch]. *)
Lemma for_each_visit l : forall self e,
  Forall (fun s => length (fst s) = length (thetas self)) l ->
  for_each l visit e self =
  (set_thetas (fst (epoch (thetas self) l)) self,
   Ret (e + snd (epoch (thetas self) l))%nat).
Proof.
  induction l as [|[x t] l IH]; intros self e H.
  - simpl. unfold ret. now rewrite set_thetas_same, Nat.add_0_r.
  - inversion H as [|? ? Hx Hl]; subst. simpl in Hx.
    cbn [for_each]. unfold bind at 1. rewrite (visit_run _ _ _ _ Hx).
    cbn [epoch].
    destruct (Qc_eqb t (Z2Qc (classify (thetas self) x))).
    + now apply IH.
    + set (th1 := vadd (thetas self) (vscale t x)).
      assert (L : length th1 = length (thetas self))
        by (apply length_vadd; now rewrite length_vscale).
      rewrite IH by (simpl; now rewrite L).
      simpl. destruct (epoch th1 l) as [th' k]. simpl.
      f_equal. f_equal. lia.
Qed.

Lemma length_trajectory l d :
  Forall (fun s => length (fst s) = d) l ->
  forall k, length (trajectory l d k) = d.
Proof.
  intros H. induction k as [|k IH]; simpl.
  - apply length_zeros.
  - rewrite length_epoch; [exact IH|]. now rewrite IH.
Qed.

Lemma first_converged_some tol l d fuel : forall j k,
  first_converged tol l d fuel j = Some k ->
  (j <= k < j + fuel)%nat /\ converged_at tol l d k = true /\
  forall i, (j <= i < k)%nat -> converged_at tol l d i = false.
Proof.
  induction fuel as [|fuel IH]; intros j k H; simpl in H; [discriminate|].
  destruct (converged_at tol l d j) eqn:E.
  - injection H as <-. repeat split; try lia. exact E.
  - apply IH in H. destruct H as (B & C & N). repeat split; try lia.
    + exact C.
    + intros i Hi. destruct (Nat.eq_dec i j) as [->|]; [exact E|].
      apply N. lia.
Qed.

Lemma first_converged_none tol l d fuel : forall j,
  first_converged tol l d fuel j = None ->
  forall i, (j <= i < j + fuel)%nat -> converged_at tol l d i = false.
Proof.
  induction fuel as [|fuel IH]; intros j H i Hi; simpl in H; [lia|].
  destruct (converged_at tol l d j) eqn:E; [discriminate|].
  destruct (Nat.eq_dec i j) as [->|]; [exact E|].
  apply (IH _ H). lia.
Qed.

Lemma first_converged_first tol l d k : forall fuel j,
  (j <= k < j + fuel)%nat ->
  converged_at tol l d k = true ->
  (forall i, (j <= i < k)%nat -> converged_at tol l d i = false) ->
  first_converged tol l d fuel j = Some k.
Proof.
  induction fuel as [|fuel IH]; intros j B C N; [lia|]. simpl.
  destruct (Nat.eq_dec j k) as [->|Hne].
  - now rewrite C.
  - rewrite N by lia. apply IH; [lia|exact C|]. intros i Hi. apply N. lia.
Qed.

Lemma snapshots_S l d idx j n :
  snapshots l d idx j (S n) =
  ((idx + 1)%Z, trajectory l d (S j)) :: snapshots l d (idx + 1) (S j) n.
Proof.
  unfold snapshots. cbn [seq map]. f_equal.
  - f_equal; [lia | now rewrite Nat.add_0_r].
  - rewrite <- seq_shift, map_map. apply map_ext. intros i.
    f_equal; [lia | f_equal; f_equal; lia].
Qed.

(** The [while] loop from epoch [j] on: it stops at the first epoch that
    passes the convergence test, or is still running when [fuel] is spent. *)
Lemma while_run X y d self :
  Forall (fun s => length (fst s) = d) (samples X y) ->
  forall fuel j idx w,
  while_not_converged fuel X y idx w (after self (samples X y) d j) =
  match first_converged (tol self) (samples X y) d fuel j with
  | Some k => (after self (samples X y) d (S k),
               Ret (w ++ snapshots (samples X y) d idx j (S k - j)))
  | None => (after self (samples X y) d (j + fuel), OutOfFuel)
  end.
Proof.
  intros Hl. set (l := samples X y) in *.
  destruct self as [th0 w0 dg bs tl es0].
  unfold after, set_errors, set_thetas in *.
  cbn [thetas weights degree bias tol errors] in *.
  induction fuel as [|fuel IH]; intros j idx w.
  - simpl. unfold out_of_fuel. now rewrite Nat.add_0_r.
  - cbn [while_not_converged first_converged].
    cbn [bind gets thetas]. fold (samples X y). fold l.
    unfold bind at 1.
    rewrite for_each_visit
      by (cbn [thetas]; rewrite length_trajectory by exact Hl; exact Hl).
    cbn [thetas weights degree bias tol errors set_thetas].
    unfold errors_append, bind, gets, modify, set_thetas, set_errors.
    cbn [thetas weights degree bias tol errors Nat.add].
    fold (mistakes l d j).
    change (fst (epoch (trajectory l d j) l)) with (trajectory l d (S j)).
    fold (converged_at tl l d j).
    rewrite <- map_last, <- seq_S.
    destruct (converged_at tl l d j) eqn:C.
    + unfold ret. replace (S j - j)%nat with 1%nat by lia.
      rewrite snapshots_S. reflexivity.
    + rewrite IH.
      destruct (first_converged tl l d fuel (S j)) as [k|] eqn:F.
      * apply first_converged_some in F. destruct F as (B & _).
        replace (S k - j)%nat with (S (S k - S j)) by lia.
        rewrite snapshots_S, <- app_assoc. reflexivity.
      * now replace (S j + fuel)%nat with (j + S fuel)%nat by lia.
Qed.

(** The test that is computed is the test on the Euclidean norm. *)
Lemma norm_le_spec v tol :
  norm_le v tol = true <-> (norm v <= Q2R (this tol))%R.
Proof.
  rewrite norm_le_true. unfold norm.
  pose proof (dot_self_nonneg v) as Hs.
  assert (Hs' : (0 <= Q2R (this (dot v v)))%R).
  { replace 0%R with (Q2R 0) by lra. apply Qle_Rle. exact Hs. }
  assert (Hm : Q2R (this (tol * tol)) = (Q2R (this tol) * Q2R (this tol))%R).
  { rewrite <- Q2R_mult. apply Qeq_eqR. unfold Qcmult, Q2Qc. cbn [this].
    apply Qred_correct. }
  split.
  - intros [H0 H1].
    assert (H0' : (0 <= Q2R (this tol))%R).
    { replace 0%R with (Q2R 0) by lra. apply Qle_Rle. exact H0. }
    apply Qle_Rle in H1. rewrite Hm in H1.
    rewrite <- (sqrt_square (Q2R (this tol))) by exact H0'.
    apply sqrt_le_1_alt. exact H1.
  - intros H.
    pose proof (sqrt_pos (Q2R (this (dot v v)))) as Hp.
    pose proof (sqrt_sqrt _ Hs') as Hq.
    split.
    + apply Rle_Qle. replace (Q2R (this 0)) with 0%R by (simpl; lra). lra.
    + apply Rle_Qle. rewrite Hm. nra.
Qed.

Lemma samples_2d D y :
  is_2d D -> Forall (fun s => length (fst s) = shape1 D) (samples D y).
Proof.
  intros H. apply Forall_forall. intros [x t] Hin.
  apply in_combine_l in Hin. unfold is_2d in H.
  rewrite Forall_forall in H. now apply H.
Qed.

Lemma length_snapshots l d idx j n : length (snapshots l d idx j n) = n.
Proof. unfold snapshots. now rewrite length_map, length_seq. Qed.

Lemma from_dict_snapshots l d idx j n cols :
  Forall (fun s => length (fst s) = d) l ->
  DataFrame_from_dict (snapshots l d idx j (S n)) cols =
  if (d =? length cols)%nat
  then inr (mk_DataFrame (map fst (snapshots l d idx j (S n))) cols
                         (map snd (snapshots l d idx j (S n))))
  else inl ValueError.
Proof.
  intros Hl. unfold DataFrame_from_dict.
  destruct (d =? length cols)%nat eqn:E.
  - replace (forallb _ _) with true; [reflexivity|].
    symmetry. apply forallb_forall. intros [i v] Hin.
    unfold snapshots in Hin. apply in_map_iff in Hin.
    destruct Hin as (k & Hk & _). injection Hk as _ <-.
    cbn [snd]. pose proof (length_trajectory l d Hl (S (j + k))) as L.
    cbn [trajectory] in L. rewrite L. exact E.
  - rewrite snapshots_S. cbn [forallb snd].
    rewrite length_trajectory by exact Hl. now rewrite E.
Qed.

Section PerceptronFit.
Variable poly_terms : Z -> vec -> vec.
Variable poly_width : Z -> nat -> nat.

Abbreviation fit := (Perceptron.fit poly_terms poly_width).
Abbreviation design := (Perceptron.design poly_terms poly_width).

(** [fit] when the feature expansion fails: nothing is assigned. *)
Lemma fit_design_error self X y fuel e :
  design self X = inl e -> fit fuel X y self = (self, Raise e).
Proof.
  unfold Perceptron.design, Perceptron.fit. intros H.
  cbn [bind gets]. unfold bind at 1. now rewrite H.
Qed.

(** [fit] on a well-shaped design matrix [D], in full. *)
Lemma fit_run self X y fuel D :
  design self X = inr D -> is_2d D ->
  fit fuel X y self =
  match first_converged (tol self) (samples D y) (shape1 D) fuel 0 with
  | Some k =>
    if (shape1 D =? 3)%nat
    then (set_weights
            (Some (mk_DataFrame
                     (map fst (snapshots (samples D y) (shape1 D) (-1) 0 (S k)))
                     weight_columns
                     (map snd (snapshots (samples D y) (shape1 D) (-1) 0 (S k)))))
            (after self (samples D y) (shape1 D) (S k)), Ret tt)
    else (after self (samples D y) (shape1 D) (S k), Raise ValueError)
  | None => (after self (samples D y) (shape1 D) fuel, OutOfFuel)
  end.
Proof.
  intros HD H2. pose proof (samples_2d D y H2) as Hl.
  unfold Perceptron.design in HD. unfold Perceptron.fit.
  cbn [bind gets]. unfold bind at 1. rewrite HD. cbn [lift ret].
  unfold bind at 1. cbn [modify]. unfold bind at 1. cbn [modify].
  change (set_errors (Some []) (set_thetas (zeros (shape1 D)) self))
    with (after self (samples D y) (shape1 D) 0).
  unfold bind at 1. rewrite (while_run D y (shape1 D) self Hl).
  destruct (first_converged (tol self) (samples D y) (shape1 D) fuel 0)
    as [k|] eqn:F; [|reflexivity].
  cbn [app]. rewrite Nat.sub_0_r. unfold bind at 1.
  rewrite from_dict_snapshots by exact Hl.
  change (length weight_columns) with 3%nat.
  destruct (shape1 D =? 3)%nat; reflexivity.
Qed.


(** The number of epochs a call has run is the length of its history. *)
Lemma fit_stops_iff self X y fuel D k :
  design self X = inr D -> is_2d D ->
  (snd (fit fuel X y self) <> OutOfFuel /\
   option_map (@length nat) (errors (fst (fit fuel X y self))) = Some (S k))
  <->
  first_converged (tol self) (samples D y) (shape1 D) fuel 0 = Some k.
Proof.
  intros HD H2. rewrite (fit_run self X y fuel D HD H2).
  destruct (first_converged (tol self) (samples D y) (shape1 D) fuel 0)
    as [k'|] eqn:F.
  - assert (E : forall s : Perceptron.t * outcome unit,
      s = (set_weights
             (Some (mk_DataFrame
                (map fst (snapshots (samples D y) (shape1 D) (-1) 0 (S k')))
                weight_columns
                (map snd (snapshots (samples D y) (shape1 D) (-1) 0 (S k')))))
             (after self (samples D y) (shape1 D) (S k')), Ret tt) \/
      s = (after self (samples D y) (shape1 D) (S k'), Raise ValueError) ->
      (snd s <> OutOfFuel /\
       option_map (@length nat) (errors (fst s)) = Some (S k)) <->
      Some k' = Some k).
    { intros s [-> | ->]; cbn [fst snd after set_weights set_errors errors
                               option_map];
        rewrite length_map, length_seq;
        (split; [intros [_ H]; injection H as ->; reflexivity
                |intros H; injection H as ->; split; congruence]). }
    apply E. destruct (shape1 D =? 3)%nat; [left|right]; reflexivity.
  - cbn [fst snd]. split; [intros [H _]; congruence | discriminate].
Qed.

(** C3 (amended).  The training loop of [Perceptron.fit] ends after epoch
    [k] exactly when [k] is the first epoch at which the Euclidean norm of
    the difference between the weights after the epoch and the weights
    before it is <= [tol]; and the default of [tol] is [10e-6], which is
    one hundred-thousandth. *)
Theorem Perceptron_fit_stops_at_tolerance self X y D :
  design self X = inr D -> is_2d D ->
  (forall fuel k,
     (snd (fit fuel X y self) <> OutOfFuel /\
      option_map (@length nat) (errors (fst (fit fuel X y self))) =
        Some (S k))
     <->
     ((k < fuel)%nat /\
      (norm (vsub (trajectory (samples D y) (shape1 D) (S k))
                  (trajectory (samples D y) (shape1 D) k))
       <= Q2R (this (tol self)))%R /\
      forall i, (i < k)%nat ->
        ~ (norm (vsub (trajectory (samples D y) (shape1 D) (S i))
                      (trajectory (samples D y) (shape1 D) i))
           <= Q2R (this (tol self)))%R))
  /\ tol Perceptron.default = Q2Qc (1 # 100000).
Proof.
  intros HD H2. split; [|now apply Qc_is_canon].
  intros fuel k. rewrite (fit_stops_iff self X y fuel D k HD H2).
  split.
  - intros F. apply first_converged_some in F. destruct F as (B & C & N).
    split; [lia|]. split.
    + apply norm_le_spec. exact C.
    + intros i Hi Hn. apply norm_le_spec in Hn.
      unfold converged_at in N. rewrite N in Hn by lia. discriminate.
  - intros (B & C & N). apply first_converged_first.
    + lia.
    + apply norm_le_spec. exact C.
    + intros i Hi. unfold converged_at.
      destruct (norm_le _ _) eqn:E; [|reflexivity].
      apply norm_le_spec in E. exfalso. apply (N i); [lia | exact E].
Qed.

(** C9.  [Perceptron.fit] names the columns of its weight-trajectory frame
    [bias, weight1, weight2].  Once the training loop has ended, the call
    returns when the design matrix has exactly 3 columns, and the frame has
    those column names; with any other column count it raises after the
    loop: the weights and the history of the run are in place and the
    [weights] attribute is as it was.  With the bias column at degree 1,
    3 columns are 2 raw features. *)
Theorem Perceptron_fit_three_columns self X y fuel D :
  design self X = inr D -> is_2d D ->
  snd (fit fuel X y self) <> OutOfFuel ->
  (shape1 D = 3%nat ->
     snd (fit fuel X y self) = Ret tt /\
     option_map df_columns (weights (fst (fit fuel X y self))) =
       Some weight_columns) /\
  (shape1 D <> 3%nat ->
     snd (fit fuel X y self) = Raise ValueError /\
     weights (fst (fit fuel X y self)) = weights self /\
     exists m, (0 < m)%nat /\
       thetas (fst (fit fuel X y self)) =
         trajectory (samples D y) (shape1 D) m /\
       errors (fst (fit fuel X y self)) =
         Some (map (mistakes (samples D y) (shape1 D)) (seq 0 m))) /\
  (degree self = 1%Z -> bias self = true ->
     (shape1 D = 3%nat <-> shape1 X = 2%nat)).
Proof.
  intros HD H2. rewrite (fit_run self X y fuel D HD H2).
  destruct (first_converged (tol self) (samples D y) (shape1 D) fuel 0)
    as [k|] eqn:F; [|cbn [snd]; congruence].
  intros _. split; [|split].
  - intros E. apply Nat.eqb_eq in E. rewrite E. split; reflexivity.
  - intros E. apply Nat.eqb_neq in E. rewrite E. cbn [fst snd].
    split; [reflexivity|]. split; [reflexivity|].
    exists (S k). split; [lia|]. split; reflexivity.
  - intros Hd Hb. unfold Perceptron.design, NeuralBase.make_polynomial in HD.
    rewrite Hd, Hb in HD. cbn in HD. injection HD as <-. cbn [shape1]. lia.
Qed.

End PerceptronFit.

(** The scenario of the specification: on the AND data [fit] returns after
    six epochs with the weights [(-3, 2, 1)], which put [(1, 1)] on the
    positive side and [(0, 0)] on the negative side. *)
Example fit_and_scenario :
  let r := Perceptron.fit no_poly_terms no_poly_width 10 X_and y_and
             Perceptron.default in
  snd r = Ret tt /\
  map this (thetas (fst r)) = [(-3) # 1; 2 # 1; 1 # 1]%Q /\
  errors (fst r) = Some [2; 3; 3; 2; 1; 0]%nat /\
  snd (predict [1; 1; 1] (fst r)) = Ret 1%Z /\
  snd (predict [1; 0; 0] (fst r)) = Ret (-1)%Z.
Proof. vm_compute. repeat split. Qed.


(** C3, as stated: the default tolerance is not one millionth. *)
Lemma Perceptron_default_tol_not_1e6 :
  tol Perceptron.default <> Q2Qc (1 # 1000000).
Proof. intros H. apply Qc_eq_this in H. vm_compute in H. discriminate. Qed.

Lemma Perceptron_fit_stops_at_tolerance_witness :
  (forall fuel k,
     (snd (Perceptron.fit no_poly_terms no_poly_width fuel X_and y_and
             Perceptron.default) <> OutOfFuel /\
      option_map (@length nat)
        (errors (fst (Perceptron.fit no_poly_terms no_poly_width fuel X_and
                        y_and Perceptron.default))) = Some (S k))
     <->
     ((k < fuel)%nat /\
      (norm (vsub (trajectory (samples D_and y_and) 3 (S k))
                  (trajectory (samples D_and y_and) 3 k))
       <= Q2R (this (tol Perceptron.default)))%R /\
      forall i, (i < k)%nat ->
        ~ (norm (vsub (trajectory (samples D_and y_and) 3 (S i))
                      (trajectory (samples D_and y_and) 3 i))
           <= Q2R (this (tol Perceptron.default)))%R))
  /\ tol Perceptron.default = Q2Qc (1 # 100000).
Proof.
  apply (Perceptron_fit_stops_at_tolerance no_poly_terms no_poly_width
           Perceptron.default X_and y_and D_and).
  - reflexivity.
  - repeat constructor.
Defined.

Lemma Perceptron_fit_three_columns_witness :
  snd (Perceptron.fit no_poly_terms no_poly_width 10 X_and y_and
         Perceptron.default) = Ret tt /\
  option_map df_columns
    (weights (fst (Perceptron.fit no_poly_terms no_poly_width 10 X_and y_and
                     Perceptron.default))) = Some weight_columns.
Proof.
  apply (Perceptron_fit_three_columns no_poly_terms no_poly_width
           Perceptron.default X_and y_and 10 D_and).
  - reflexivity.
  - repeat constructor.
  - vm_compute. discriminate.
  - reflexivity.
Defined.

(** ** Prediction *)

Lemma where_ge0_rule z :
  Forall2 (fun a r => (0 <= a -> r = 1%Z) /\ (a < 0 -> r = (-1)%Z))
          z (where_ge0 z).
Proof.
  induction z as [|a z IH]; cbn [where_ge0 map]; constructor; [|exact IH].
  destruct (Qc_leb_cases 0 a) as [[E H]|[E H]]; rewrite E; split;
    intros H'; try reflexivity.
  - exfalso. exact (Qclt_not_le _ _ H' H).
  - exfalso. exact (Qclt_not_le _ _ H H').
Qed.

(** C6.  [Perceptron.predict] returns [+1] when the net input of its row
    is [>= 0] and [-1] otherwise.  [AdalineGD.predict] applies the same rule
    to [activation(net_input)] of all rows at once, with the weights it is
    given or, without them, the weights of the instance. *)
Theorem predict_decision_rule :
  (forall (self : Perceptron.t) x z,
     NeuralBase.net_input x (thetas self) = inr z ->
     (0 <= z -> snd (Perceptron.predict x self) = Ret 1%Z) /\
     (z < 0 -> snd (Perceptron.predict x self) = Ret (-1)%Z))
  /\
  (forall (self : AdalineGD.t) X arg th z,
     match arg with Some a => Some a | None => AdalineGD.thetas self end
       = Some th ->
     NeuralBase.net_input_2d X th = inr z ->
     exists p,
       snd (AdalineGD.predict X arg self) = Ret p /\
       length p = shape0 X /\
       Forall2 (fun a r => (0 <= a -> r = 1%Z) /\ (a < 0 -> r = (-1)%Z))
               (AdalineGD.activation z) p).
Proof.
  split.
  - intros self x z H. unfold Perceptron.predict, bind, gets.
    rewrite H. cbn [lift ret snd].
    destruct (Qc_leb_cases 0 z) as [[E L]|[E L]]; rewrite E; split;
      intros H'; try reflexivity.
    + exfalso. exact (Qclt_not_le _ _ H' L).
    + exfalso. exact (Qclt_not_le _ _ L H').
  - intros self X arg th z Ht Hz.
    exists (where_ge0 (AdalineGD.activation z)).
    split; [|split].
    + destruct arg as [a|]; unfold AdalineGD.predict, bind, gets.
      * injection Ht as ->. cbn [AdalineGD.net_input_self].
        rewrite Hz. reflexivity.
      * rewrite Ht. cbn [AdalineGD.net_input_self]. rewrite Hz. reflexivity.
    + unfold where_ge0, AdalineGD.activation. rewrite length_map.
      unfold NeuralBase.net_input_2d in Hz.
      destruct (shape1 X =? length th)%nat; [|discriminate].
      injection Hz as <-. now rewrite length_map.
    + apply where_ge0_rule.
Qed.

Lemma predict_decision_rule_witness :
  snd (Perceptron.predict [1; 1; 1]
         (set_thetas [Z2Qc (-3); Z2Qc 2; 1] Perceptron.default)) = Ret 1%Z /\
  snd (Perceptron.predict [1; 0; 0]
         (set_thetas [Z2Qc (-3); Z2Qc 2; 1] Perceptron.default))
    = Ret (-1)%Z /\
  exists p,
    snd (AdalineGD.predict D_and None
           (AdalineGD.set_thetas (Some [Z2Qc (-3); Z2Qc 2; 1])
              AdalineGD.default)) = Ret p /\
    length p = shape0 D_and /\
    Forall2 (fun a r => (0 <= a -> r = 1%Z) /\ (a < 0 -> r = (-1)%Z))
            (AdalineGD.activation
               (map (fun r => dot r [Z2Qc (-3); Z2Qc 2; 1]) (rows D_and))) p.
Proof.
  split; [|split].
  - apply (proj1 predict_decision_rule
             (set_thetas [Z2Qc (-3); Z2Qc 2; 1] Perceptron.default)
             [1; 1; 1] 0).
    + cbn. f_equal; try now apply Qc_is_canon.
    + apply Qcle_refl.
  - apply (proj1 predict_decision_rule
             (set_thetas [Z2Qc (-3); Z2Qc 2; 1] Perceptron.default)
             [1; 0; 0] (Z2Qc (-3))).
    + cbn. f_equal; try now apply Qc_is_canon.
    + reflexivity.
  - apply (proj2 predict_decision_rule
             (AdalineGD.set_thetas (Some [Z2Qc (-3); Z2Qc 2; 1])
                AdalineGD.default)
             D_and None [Z2Qc (-3); Z2Qc 2; 1]); reflexivity.
Defined.

(** C8.  [predict] assigns nothing: for every instance of either class and
    every input, the instance after the call (its weight vector, its weight
    trajectory, its history and all the rest) is the instance before it. *)
Theorem predict_leaves_instance_unchanged :
  (forall (self : Perceptron.t) x, fst (Perceptron.predict x self) = self) /\
  (forall (self : AdalineGD.t) X arg,
     fst (AdalineGD.predict X arg self) = self).
Proof.
  split.
  - intros self x. unfold Perceptron.predict, bind, gets.
    destruct (NeuralBase.net_input x (thetas self)); reflexivity.
  - intros self X arg. destruct arg as [a|];
      unfold AdalineGD.predict, bind, gets.
    + destruct (AdalineGD.net_input_self X (Some a)); reflexivity.
    + destruct (AdalineGD.net_input_self X (AdalineGD.thetas self));
        reflexivity.
Qed.

(** ** AdalineGD: batch gradient descent *)

Lemma nth_vadd u : forall v j,
  length u = length v -> nth j (vadd u v) 0 = nth j u 0 + nth j v 0.
Proof.
  induction u as [|a u IH]; intros [|b v] [|j] H; simpl in *;
    try discriminate; try ring.
  apply IH. lia.
Qed.

Lemma nth_vscale c u : forall j, nth j (vscale c u) 0 = c * nth j u 0.
Proof.
  induction u as [|a u IH]; intros [|j]; simpl; try ring. apply IH.
Qed.

Lemma nth_zeros n j : nth j (zeros n) 0 = 0.
Proof.
  revert j. induction n as [|n IH]; intros [|j]; simpl; try reflexivity.
  apply IH.
Qed.

Lemma nth_map_seq (f : nat -> Qc) d j :
  (j < d)%nat -> nth j (map f (seq 0 d)) 0 = f j.
Proof.
  intros H. rewrite (nth_indep _ 0 (f 0%nat))
    by now rewrite length_map, length_seq.
  rewrite map_nth, seq_nth by exact H. reflexivity.
Qed.

Lemma length_Xt_dot d rs : forall e,
  Forall (fun r => length r = d) rs -> length (AdalineSpec.Xt_dot d rs e) = d.
Proof.
  induction rs as [|r rs IH]; intros e H; simpl.
  - apply length_zeros.
  - destruct e as [|a e]; [apply length_zeros|].
    inversion H; subst.
    rewrite length_vadd; rewrite length_vscale; [reflexivity|].
    now rewrite IH.
Qed.

(** [X.T @ e], computed column by column, is the sum of the rows weighted
    by [e]. *)
Lemma transpose_dot d rs : forall e,
  Forall (fun r => length r = d) rs ->
  map (fun j => dot (map (fun r => nth j r 0) rs) e) (seq 0 d) =
  AdalineSpec.Xt_dot d rs e.
Proof.
  induction rs as [|r rs IH]; intros e H.
  - simpl. unfold zeros. clear H.
    generalize 0%nat. induction d as [|d IHd]; intros s; simpl;
      [reflexivity | now rewrite IHd].
  - inversion H as [|? ? Hr Hrs]; subst.
    destruct e as [|a e].
    + simpl. clear. unfold zeros.
      generalize 0%nat. induction (length r) as [|d IHd]; intros s; simpl;
        [reflexivity | now rewrite IHd].
    + cbn [AdalineSpec.Xt_dot]. rewrite <- (IH e Hrs).
      apply (nth_ext _ _ 0 0).
      * rewrite length_vadd; rewrite length_vscale, ?length_map, ?length_seq;
          reflexivity.
      * intros j Hj. rewrite length_map, length_seq in Hj.
        rewrite nth_map_seq by exact Hj.
        rewrite nth_vadd
          by (now rewrite length_vscale, length_map, length_seq).
        rewrite nth_vscale, nth_map_seq by exact Hj.
        cbn [map dot]. ring.
Qed.

Lemma matvec_scaled_transpose eta D e :
  is_2d D -> length e = shape0 D ->
  matvec (mscale eta (transpose D)) e =
  inr (vscale eta (AdalineSpec.Xt_dot (shape1 D) (rows D) e)).
Proof.
  intros H2 He. unfold matvec, mscale, transpose. cbn [shape1 rows].
  apply Nat.eqb_eq in He. rewrite Nat.eqb_sym, He. f_equal.
  rewrite <- (transpose_dot (shape1 D) (rows D) e H2).
  unfold vscale at 2. rewrite !map_map. apply map_ext.
  intros j. apply dot_vscale_l.
Qed.

Lemma vadd_vdiv_vscale th eta n v :
  vadd th (vdiv (vscale eta v) n) = vadd th (vscale (eta / n) v).
Proof.
  f_equal. unfold vdiv, vscale. rewrite map_map. apply map_ext.
  intros a. unfold Qcdiv. ring.
Qed.

(** One iteration of the loop of [AdalineGD.fit] is one [update], and it
    appends one cost. *)
Lemma iteration_run self D y th :
  is_2d D -> length y = shape0 D ->
  AdalineGD.thetas self = Some th -> length th = shape1 D ->
  AdalineGD.iteration D y (shape0 D) self =
  (AdalineGD.set_cost
     (AdalineGD.cost self ++ [AdalineSpec.cost_of D y th])
     (AdalineGD.set_thetas
        (Some (AdalineSpec.update (AdalineGD.eta self) D y th)) self),
   Ret tt).
Proof.
  intros H2 Hy Hth Hl. unfold AdalineGD.iteration.
  cbn [bind gets]. rewrite Hth. unfold bind at 1.
  cbn [AdalineGD.net_input_self]. unfold NeuralBase.net_input_2d.
  rewrite Hl, Nat.eqb_refl. cbn [lift ret].
  unfold bind at 1. unfold AdalineGD.activation, broadcast_sub.
  rewrite length_map. fold (shape0 D). rewrite Hy, Nat.eqb_refl.
  cbn [lift ret]. fold (AdalineSpec.error_of D y th).
  cbn [bind gets]. unfold bind at 1.
  rewrite matvec_scaled_transpose
    by (try exact H2; unfold AdalineSpec.error_of;
        rewrite length_vsub; rewrite ?length_map; exact Hy).
  cbn [lift ret]. unfold bind at 1. cbn [modify option_map].
  cbn [bind gets modify]. rewrite vadd_vdiv_vscale.
  reflexivity.
Qed.

Lemma length_adaline_trajectory eta D y :
  is_2d D -> forall k, length (AdalineSpec.trajectory eta D y k) = shape1 D.
Proof.
  intros H2. induction k as [|k IH]; cbn [AdalineSpec.trajectory].
  - apply length_zeros.
  - unfold AdalineSpec.update. rewrite length_vadd; [exact IH|].
    now rewrite length_vscale, length_Xt_dot, IH.
Qed.

Lemma for_range_iteration D y :
  is_2d D -> length y = shape0 D ->
  forall k self j,
  AdalineGD.thetas self =
    Some (AdalineSpec.trajectory (AdalineGD.eta self) D y j) ->
  for_range k (AdalineGD.iteration D y (shape0 D)) self =
  (AdalineGD.set_cost
     (AdalineGD.cost self ++
      map (fun i => AdalineSpec.cost_of D y
                      (AdalineSpec.trajectory (AdalineGD.eta self) D y i))
          (seq j k))
     (AdalineGD.set_thetas
        (Some (AdalineSpec.trajectory (AdalineGD.eta self) D y (j + k)))
        self),
   Ret tt).
Proof.
  intros H2 Hy. induction k as [|k IH]; intros self j Hth.
  - cbn [for_range seq map ret]. rewrite app_nil_r, Nat.add_0_r.
    rewrite <- Hth. now destruct self.
  - cbn [for_range]. unfold bind at 1.
    rewrite (iteration_run self D y _ H2 Hy Hth)
      by (now apply length_adaline_trajectory).
    rewrite (IH _ (S j)) by reflexivity.
    destruct self as [e n c b t dg].
    unfold AdalineGD.set_cost, AdalineGD.set_thetas.
    cbn [AdalineGD.eta AdalineGD.niter AdalineGD.cost AdalineGD.bias
         AdalineGD.thetas AdalineGD.degree seq map].
    rewrite <- app_assoc. cbn [app].
    now replace (S j + k)%nat with (j + S k)%nat by lia.
Qed.

Section AdalineFit.
Variable poly_terms : Z -> vec -> vec.
Variable poly_width : Z -> nat -> nat.

Abbreviation afit := (AdalineGD.fit poly_terms poly_width).
Abbreviation adesign := (AdalineGD.design poly_terms poly_width).

Lemma adaline_design_degree1 self X D :
  AdalineGD.degree self = 1%Z -> adesign self X = inr D ->
  shape1 D = (1 + shape1 X)%nat /\ rows D = map (cons 1) (rows X).
Proof.
  intros Hd HD. unfold AdalineGD.design, NeuralBase.make_polynomial in HD.
  rewrite Hd in HD. cbn in HD. injection HD as <-. cbn [shape1 rows].
  split; [lia|]. apply map_ext. intros r.
  unfold NeuralBase.expand_row. cbn. now rewrite app_nil_r.
Qed.

(** C2.  [AdalineGD.fit] runs exactly [niter] iterations, with no test of
    convergence.  On a well-shaped input with at least one sample, every
    iteration computes, over the whole design matrix, the error
    [y - activation(net_input)], appends the cost [(error . error) / (2n)]
    to the cost history, whatever its value, and adds
    [eta * X^T . error / n] to the weights: the weights are those of
    [niter] updates from the zero vector and the history has grown by the
    [niter] costs. *)
Theorem AdalineGD_fit_batch self X y D :
  AdalineGD.degree self = 1%Z -> adesign self X = inr D ->
  is_2d X -> length y = shape0 X -> shape0 X <> 0%nat ->
  afit X y self =
  (AdalineGD.set_cost
     (AdalineGD.cost self ++
      AdalineSpec.costs (AdalineGD.eta self) D y
        (Z.to_nat (AdalineGD.niter self)))
     (AdalineGD.set_thetas
        (Some (AdalineSpec.trajectory (AdalineGD.eta self) D y
                 (Z.to_nat (AdalineGD.niter self))))
        self),
   Ret tt) /\
  length (AdalineSpec.costs (AdalineGD.eta self) D y
            (Z.to_nat (AdalineGD.niter self))) =
    Z.to_nat (AdalineGD.niter self).
Proof.
  intros Hd HD H2 Hy Hn.
  destruct (adaline_design_degree1 self X D Hd HD) as [Hs Hr].
  assert (H0 : shape0 D = shape0 X)
    by (unfold shape0; now rewrite Hr, length_map).
  assert (H2D : is_2d D).
  { unfold is_2d. rewrite Hr, Hs. apply Forall_map.
    unfold is_2d in H2. eapply Forall_impl; [|exact H2].
    intros r E. cbn. now rewrite E. }
  split.
  - unfold AdalineGD.fit. cbn [bind modify gets].
    unfold AdalineGD.design in HD. unfold bind at 1.
    cbn [AdalineGD.degree AdalineGD.set_thetas]. rewrite HD.
    cbn [lift ret bind gets AdalineGD.niter]. rewrite <- H0.
    rewrite (for_range_iteration D y H2D (eq_trans Hy (eq_sym H0)) _ _ 0%nat)
      by (cbn [AdalineGD.thetas AdalineSpec.trajectory];
          now rewrite Hs).
    destruct self as [e n c b t dg]. reflexivity.
  - unfold AdalineSpec.costs. now rewrite length_map, length_seq.
Qed.

End AdalineFit.

Lemma AdalineGD_fit_batch_witness :
  AdalineGD.fit no_poly_terms no_poly_width X_and y_and adaline_3 =
  (AdalineGD.set_cost
     (AdalineGD.cost adaline_3 ++
      AdalineSpec.costs (AdalineGD.eta adaline_3) D_and y_and
        (Z.to_nat (AdalineGD.niter adaline_3)))
     (AdalineGD.set_thetas
        (Some (AdalineSpec.trajectory (AdalineGD.eta adaline_3) D_and y_and
                 (Z.to_nat (AdalineGD.niter adaline_3))))
        adaline_3),
   Ret tt) /\
  length (AdalineSpec.costs (AdalineGD.eta adaline_3) D_and y_and
            (Z.to_nat (AdalineGD.niter adaline_3))) =
    Z.to_nat (AdalineGD.niter adaline_3).
Proof.
  apply (AdalineGD_fit_batch no_poly_terms no_poly_width adaline_3 X_and
           y_and D_and).
  - reflexivity.
  - reflexivity.
  - repeat constructor.
  - reflexivity.
  - discriminate.
Defined.

(** *** The bias flag *)

Lemma ignores_bias_ret {A} (a : A) : ignores_bias (ret a).
Proof. intros b s. reflexivity. Qed.

Lemma ignores_bias_lift {A} (r : exn + A) : ignores_bias (lift r).
Proof. intros b s. destruct r; reflexivity. Qed.

Lemma ignores_bias_gets {A} (f : AdalineGD.t -> A) :
  (forall b s, f (AdalineGD.set_bias b s) = f s) -> ignores_bias (gets f).
Proof. intros H b s. unfold gets. now rewrite H. Qed.

Lemma ignores_bias_modify (g : AdalineGD.t -> AdalineGD.t) :
  (forall b s, g (AdalineGD.set_bias b s) = AdalineGD.set_bias b (g s)) ->
  ignores_bias (modify g).
Proof. intros H b s. unfold modify. now rewrite H. Qed.

Lemma ignores_bias_bind {A B} (c : M AdalineGD.t A) (k : A -> M AdalineGD.t B) :
  ignores_bias c -> (forall a, ignores_bias (k a)) -> ignores_bias (bind c k).
Proof.
  intros Hc Hk b s. unfold bind. rewrite Hc.
  destruct (c s) as [s' [a|e|]]; cbn [fst snd]; [apply Hk | reflexivity ..].
Qed.

Lemma ignores_bias_for_range n (body : M AdalineGD.t unit) :
  ignores_bias body -> ignores_bias (for_range n body).
Proof.
  intros H. induction n as [|n IH]; cbn [for_range].
  - apply ignores_bias_ret.
  - apply ignores_bias_bind; [exact H | intros _; exact IH].
Qed.

Lemma ignores_bias_iteration D y n : ignores_bias (AdalineGD.iteration D y n).
Proof.
  unfold AdalineGD.iteration.
  repeat first
    [ apply ignores_bias_bind; [|intros ?]
    | apply ignores_bias_lift
    | apply ignores_bias_gets; intros ? ?; reflexivity
    | apply ignores_bias_modify; intros ? ?; reflexivity ].
Qed.

Lemma iteration_keeps_length D y n self L :
  (exists th, AdalineGD.thetas self = Some th /\ length th = L) ->
  exists th, AdalineGD.thetas (fst (AdalineGD.iteration D y n self)) = Some th
             /\ length th = L.
Proof.
  intros (th & Hth & Hl). unfold AdalineGD.iteration.
  cbn [bind gets]. rewrite Hth. unfold bind at 1.
  cbn [AdalineGD.net_input_self]. unfold NeuralBase.net_input_2d.
  destruct (shape1 D =? length th)%nat eqn:E; cbn [lift ret raise fst];
    [|now exists th].
  unfold bind at 1.
  destruct (broadcast_sub y _) as [e|err]; cbn [lift ret raise fst];
    [now exists th|].
  cbn [bind gets]. unfold bind at 1. unfold matvec.
  destruct (shape1 _ =? length err)%nat; cbn [lift ret raise fst];
    [|now exists th].
  unfold bind at 1. cbn [modify option_map bind gets fst].
  cbn [AdalineGD.set_cost AdalineGD.set_thetas AdalineGD.thetas].
  eexists. split; [reflexivity|].
  rewrite length_vadd; [exact Hl|].
  unfold vdiv, mscale, transpose. cbn [rows].
  rewrite !length_map, length_seq. apply Nat.eqb_eq in E. lia.
Qed.

Lemma for_range_keeps_length D y n L k : forall self,
  (exists th, AdalineGD.thetas self = Some th /\ length th = L) ->
  exists th,
    AdalineGD.thetas (fst (for_range k (AdalineGD.iteration D y n) self))
      = Some th /\ length th = L.
Proof.
  induction k as [|k IH]; intros self H; cbn [for_range].
  - exact H.
  - unfold bind. pose proof (iteration_keeps_length D y n self L H) as H1.
    destruct (AdalineGD.iteration D y n self) as [s' [[]|e|]];
      cbn [fst] in *; [now apply IH | exact H1 ..].
Qed.

Section AdalineBias.
Variable poly_terms : Z -> vec -> vec.
Variable poly_width : Z -> nat -> nat.


End AdalineBias.

(** ** Fitting twice *)

(** C4: what the code does at the failing input.  A second
    [AdalineGD.fit] on the same instance recomputes the weights from the
    zero vector, but [self.cost] is assigned in [__init__] only: the costs
    of the second call are appended to those of the first, and the history
    of three iterations has six entries. *)
Theorem AdalineGD_fit_twice_accumulates :
  let once :=
    fst (AdalineGD.fit no_poly_terms no_poly_width X_and y_and adaline_3) in
  let twice :=
    fst (AdalineGD.fit no_poly_terms no_poly_width X_and y_and once) in
  AdalineGD.thetas twice = AdalineGD.thetas once /\
  length (AdalineGD.cost once) = 3%nat /\
  length (AdalineGD.cost twice) = 6%nat /\
  AdalineGD.cost twice = AdalineGD.cost once ++ AdalineGD.cost once /\
  AdalineGD.cost twice <> AdalineGD.cost once.
Proof.
  vm_compute. repeat split. discriminate.
Qed.

Section PerceptronTwice.
Variable poly_terms : Z -> vec -> vec.
Variable poly_width : Z -> nat -> nat.

(** X2.  [Perceptron.fit], for comparison, assigns [thetas] and [errors]
    afresh at its start: a second call on the same data ends in the state
    of the first, the same way. *)
Lemma Perceptron_fit_twice self X y fuel D :
  Perceptron.design poly_terms poly_width self X = inr D -> is_2d D ->
  Perceptron.fit poly_terms poly_width fuel X y
    (fst (Perceptron.fit poly_terms poly_width fuel X y self)) =
  Perceptron.fit poly_terms poly_width fuel X y self.
Proof.
  intros HD H2.
  rewrite (fit_run poly_terms poly_width self X y fuel D HD H2).
  destruct (first_converged (tol self) (samples D y) (shape1 D) fuel 0)
    as [k|] eqn:F; [destruct (shape1 D =? 3)%nat eqn:E|]; cbn [fst];
    (erewrite fit_run; [|exact HD|exact H2]);
    cbn [tol after set_weights set_errors set_thetas]; rewrite F, ?E;
    reflexivity.
Qed.

End PerceptronTwice.


(** ** The learning rate *)

Lemma vscale_vadd c u : forall v,
  vscale c (vadd u v) = vadd (vscale c u) (vscale c v).
Proof.
  unfold vscale.
  induction u as [|a u IH]; intros [|b v]; simpl; try reflexivity.
  rewrite IH. f_equal. ring.
Qed.

Lemma vscale_vsub c u : forall v,
  vscale c (vsub u v) = vsub (vscale c u) (vscale c v).
Proof.
  unfold vscale.
  induction u as [|a u IH]; intros [|b v]; simpl; try reflexivity.
  rewrite IH. f_equal. ring.
Qed.

Lemma vscale_vscale a b v : vscale a (vscale b v) = vscale (a * b) v.
Proof.
  unfold vscale. rewrite map_map. apply map_ext. intros x. ring.
Qed.

Lemma vscale_zeros c n : vscale c (zeros n) = zeros n.
Proof.
  unfold vscale, zeros.
  induction n as [|n IH]; simpl; [reflexivity|].
  rewrite IH. f_equal. ring.
Qed.

Lemma Qc_leb_scale eta z : 0 < eta -> Qc_leb 0 (eta * z) = Qc_leb 0 z.
Proof.
  intros H.
  destruct (Qc_leb_cases 0 z) as [[E L]|[E L]]; rewrite E.
  - apply Qc_leb_le. qc_nra.
  - apply Qc_leb_gt. qc_nra.
Qed.

Lemma Qc_leb_scale2 eta a b :
  0 < eta -> Qc_leb (eta * eta * a) (eta * b * (eta * b)) = Qc_leb a (b * b).
Proof.
  intros H.
  assert (P : 0 < eta * eta) by qc_nra.
  set (e2 := eta * eta) in *.
  replace (eta * b * (eta * b)) with (e2 * (b * b)) by (unfold e2; ring).
  set (c := b * b). clearbody e2 c.
  destruct (Qc_leb_cases a c) as [[E L]|[E L]]; rewrite E.
  - apply Qc_leb_le. qc_nra.
  - apply Qc_leb_gt. qc_nra.
Qed.

(** The convergence test does not see a common scale of the weights and
    the tolerance. *)
Lemma norm_le_scale eta u v tol :
  0 < eta ->
  norm_le (vsub (vscale eta u) (vscale eta v)) (eta * tol) =
  norm_le (vsub u v) tol.
Proof.
  intros H. unfold norm_le. rewrite <- vscale_vsub.
  rewrite dot_vscale_l, dot_vscale_r, Qcmult_assoc.
  rewrite (Qc_leb_scale eta tol H), (Qc_leb_scale2 eta _ tol H).
  reflexivity.
Qed.

Import PerceptronEta.

Lemma visit_scaled eta e sample self :
  0 < eta ->
  PerceptronEta.visit eta e sample (scaled eta self) =
  (scaled eta (fst (Perceptron.visit e sample self)),
   snd (Perceptron.visit e sample self)).
Proof.
  intros H. destruct sample as [x t].
  unfold PerceptronEta.visit, Perceptron.visit, predict, bind, gets, lift,
    NeuralBase.net_input.
  cbn [thetas scaled]. rewrite length_vscale.
  destruct (length x =? length (thetas self))%nat; cbn [ret raise];
    [|reflexivity].
  rewrite dot_vscale_r, (Qc_leb_scale eta _ H).
  destruct (negb _); cbn [ret modify fst snd]; [|reflexivity].
  unfold scaled, set_thetas. cbn [thetas weights degree bias tol errors].
  now rewrite vscale_vadd, vscale_vscale.
Qed.

Lemma for_each_scaled eta l : forall e self s' o,
  0 < eta ->
  for_each l Perceptron.visit e self = (s', o) ->
  for_each l (PerceptronEta.visit eta) e (scaled eta self) =
  (scaled eta s', o).
Proof.
  induction l as [|sample l IH]; intros e self s' o H F; cbn [for_each] in *.
  - unfold ret in *. now injection F as <- <-.
  - unfold bind in *. rewrite (visit_scaled eta e sample self H).
    destruct (Perceptron.visit e sample self) as [s1 [e1|ex|]];
      cbn [fst snd]; [now apply IH | now injection F as <- <- ..].
Qed.

Lemma scaled_items_app eta w w' :
  scaled_items eta (w ++ w') = scaled_items eta w ++ scaled_items eta w'.
Proof. apply map_app. Qed.

Lemma while_scaled eta X y fuel : forall idx w self s' o,
  0 < eta ->
  Perceptron.while_not_converged fuel X y idx w self = (s', o) ->
  PerceptronEta.while_not_converged eta fuel X y idx (scaled_items eta w)
    (scaled eta self) =
  (scaled eta s', outcome_map (scaled_items eta) o).
Proof.
  induction fuel as [|fuel IH]; intros idx w self s' o H W.
  - cbn in *. unfold out_of_fuel in *. now injection W as <- <-.
  - cbn [PerceptronEta.while_not_converged Perceptron.while_not_converged]
      in *.
    cbn [bind gets] in *. unfold bind at 1. unfold bind at 1 in W.
    destruct (for_each (combine (rows X) y) Perceptron.visit 0%nat self)
      as [s1 o1] eqn:F.
    rewrite (for_each_scaled eta _ _ _ _ _ H F).
    destruct o1 as [e1|ex|]; [|now injection W as <- <- ..].
    unfold bind at 1. unfold bind at 1 in W.
    unfold errors_append, bind at 1. unfold errors_append, bind at 1 in W.
    cbn [gets scaled errors] in *.
    destruct (errors s1) as [es|]; cbn [modify raise] in *;
      [|now injection W as <- <-].
    cbn [bind gets] in *.
    change (set_errors (Some (es ++ [e1])) (scaled eta s1))
      with (scaled eta (set_errors (Some (es ++ [e1])) s1)).
    set (s2 := set_errors (Some (es ++ [e1])) s1) in *.
    change (thetas (scaled eta s2)) with (vscale eta (thetas s2)).
    change (tol (scaled eta s2)) with (eta * tol s2).
    change (thetas (scaled eta self)) with (vscale eta (thetas self)).
    rewrite (norm_le_scale eta _ _ _ H).
    change (scaled_items eta w ++ [((idx + 1)%Z, vscale eta (thetas s2))])
      with (scaled_items eta w ++
            scaled_items eta [((idx + 1)%Z, thetas s2)]).
    rewrite <- scaled_items_app.
    destruct (norm_le (vsub (thetas s2) (thetas self)) (tol s2)).
    + unfold ret in *. now injection W as <- <-.
    + now apply IH.
Qed.

Lemma from_dict_scaled eta w cols :
  DataFrame_from_dict (scaled_items eta w) cols =
  match DataFrame_from_dict w cols with
  | inr df => inr (mk_DataFrame (df_index df) (df_columns df)
                                (map (vscale eta) (df_values df)))
  | inl e => inl e
  end.
Proof.
  assert (E : forallb (fun kv => (length (snd kv) =? length cols)%nat)
                (scaled_items eta w) =
              forallb (fun kv => (length (snd kv) =? length cols)%nat) w).
  { induction w as [|kv w IH]; [reflexivity|].
    cbn [scaled_items map forallb snd]. rewrite length_vscale. f_equal.
    exact IH. }
  unfold DataFrame_from_dict. rewrite E.
  match goal with |- context [if ?b then _ else _] => destruct b end;
    [|reflexivity].
  unfold scaled_items. cbn [df_index df_columns df_values].
  now rewrite !map_map.
Qed.

Section LearningRate.
Variable poly_terms : Z -> vec -> vec.
Variable poly_width : Z -> nat -> nat.

Lemma fit_scaled eta self X y fuel D s' o :
  0 < eta ->
  Perceptron.design poly_terms poly_width self X = inr D ->
  Perceptron.fit poly_terms poly_width fuel X y self = (s', o) ->
  exists s'',
    PerceptronEta.fit poly_terms poly_width eta fuel X y
      (with_tol (eta * tol self) self) = (s'', o) /\
    thetas s'' = vscale eta (thetas s') /\
    errors s'' = errors s' /\
    (o = Ret tt ->
     option_map df_values (weights s'') =
     option_map (fun df => map (vscale eta) (df_values df)) (weights s')).
Proof.
  intros H HD F.
  unfold PerceptronEta.fit. unfold Perceptron.fit in F.
  unfold Perceptron.design in HD.
  cbn [bind gets degree bias with_tol] in *.
  unfold bind at 1. unfold bind at 1 in F.
  rewrite HD in *. cbn [lift ret] in *.
  unfold bind at 1. unfold bind at 1 in F. cbn [modify] in *.
  unfold bind at 1. unfold bind at 1 in F. cbn [modify] in *.
  unfold bind at 1. unfold bind at 1 in F.
  set (s0 := set_errors (Some []) (set_thetas (zeros (shape1 D)) self)) in *.
  replace (set_errors (Some [])
             (set_thetas (zeros (shape1 D)) (with_tol (eta * tol self) self)))
    with (scaled eta s0)
    by (unfold scaled, s0, set_errors, set_thetas, with_tol;
        cbn [thetas weights degree bias tol errors];
        now rewrite vscale_zeros).
  destruct (Perceptron.while_not_converged fuel D y (-1) [] s0)
    as [s1 o1] eqn:W.
  pose proof (while_scaled eta D y fuel (-1)%Z [] s0 s1 o1 H W) as W'.
  change (scaled_items eta []) with (@nil (Z * vec)) in W'.
  rewrite W'.
  destruct o1 as [w|ex|]; cbn [outcome_map] in *.
  - unfold bind in *. rewrite from_dict_scaled.
    destruct (DataFrame_from_dict w weight_columns) as [ex|df];
      cbn [lift raise ret modify] in *; injection F as <- <-;
      eexists; (split; [reflexivity|]); repeat split; discriminate.
  - injection F as <- <-. eexists. split; [reflexivity|].
    repeat split. discriminate.
  - injection F as <- <-. eexists. split; [reflexivity|].
    repeat split. discriminate.
Qed.


End LearningRate.



(** ** Convergence of the perceptron on separable data *)

Lemma Z2Qc_1 : Z2Qc 1 = 1.
Proof. now apply Qc_is_canon. Qed.

Lemma Z2Qc_m1 : Z2Qc (-1) = - (1).
Proof. now apply Qc_is_canon. Qed.

Lemma nat2Qc_S n : nat2Qc (S n) = nat2Qc n + 1.
Proof.
  unfold nat2Qc. rewrite Nat2Z.inj_succ. unfold Z.succ.
  apply Qc_is_canon. unfold Z2Qc, Qcplus, Q2Qc. cbn [this].
  rewrite !Qred_correct, inject_Z_plus. reflexivity.
Qed.

Lemma nat2Qc_nonneg n : 0 <= nat2Qc n.
Proof.
  induction n as [|n IH]; [apply Qcle_refl|]. rewrite nat2Qc_S. qc_lra.
Qed.

Lemma nat2Qc_pos n : n <> 0%nat -> 1 <= nat2Qc n.
Proof.
  destruct n as [|n]; [congruence|]. intros _. rewrite nat2Qc_S.
  pose proof (nat2Qc_nonneg n). qc_lra.
Qed.

(** A sample that [fit] updates on lies on the wrong side, or on the
    boundary: [label * net_input <= 0]. *)
Lemma mistake_sign thetas x t :
  pm1 t -> Qc_eqb t (Z2Qc (classify thetas x)) = false ->
  t * dot x thetas <= 0.
Proof.
  intros Ht E. apply Qc_eqb_neq in E. unfold classify, decide in E.
  destruct (Qc_leb_cases 0 (dot x thetas)) as [[B L]|[B L]];
    rewrite B in E; destruct Ht as [-> | ->].
  - exfalso. apply E. symmetry. apply Z2Qc_1.
  - qc_lra.
  - qc_lra.
  - exfalso. apply E. symmetry. apply Z2Qc_m1.
Qed.

Lemma cauchy_schwarz_step (a b s U V : Qc) :
  s * s <= U * V -> 0 <= U -> 0 <= V ->
  (a * b + s) * (a * b + s) <= (a * a + U) * (b * b + V).
Proof.
  intros H HU HV. qc2q.
  set (qa := this a) in *. set (qb := this b) in *. set (qs := this s) in *.
  set (qU := this U) in *. set (qV := this V) in *.
  clearbody qa qb qs qU qV.
  destruct (Qlt_le_dec 0 qV) as [P|E].
  - assert (S1 : (0 <= (qa * qV - qb * qs) * (qa * qV - qb * qs))%Q)
      by (set (z := (qa * qV - qb * qs)%Q); nra).
    assert (S2 : (0 <= qb * qb)%Q) by nra.
    assert (S3 : (0 <= qU * qV - qs * qs)%Q) by lra.
    assert (S4 : (0 <= (qb * qb) * (qU * qV - qs * qs))%Q)
      by (apply Qmult_le_0_compat; assumption).
    assert (K : (0 <= qV * (qa * qa * qV + qb * qb * qU
                            - 2 * qa * qb * qs))%Q).
    { setoid_replace
        (qV * (qa * qa * qV + qb * qb * qU - 2 * qa * qb * qs))%Q
        with ((qa * qV - qb * qs) * (qa * qV - qb * qs)
              + qb * qb * (qU * qV - qs * qs))%Q by ring.
      lra. }
    assert (0 <= qa * qa * qV + qb * qb * qU - 2 * qa * qb * qs)%Q.
    { apply (Qmult_lt_0_le_reg_r _ _ qV P). lra. }
    lra.
  - assert (qV == 0)%Q by lra. assert (qs * qs <= 0)%Q by nra.
    assert (qs == 0)%Q by nra.
    assert (0 <= qU * (qb * qb))%Q
      by (apply Qmult_le_0_compat; [lra|nra]).
    nra.
Qed.

Lemma cauchy_schwarz u : forall v,
  dot u v * dot u v <= dot u u * dot v v.
Proof.
  induction u as [|a u IH]; intros [|b v]; cbn [dot].
  - qc_lra.
  - qc_lra.
  - qc_lra.
  - apply cauchy_schwarz_step; [apply IH | apply dot_self_nonneg ..].
Qed.

Lemma potential_expand u thetas :
  length thetas = length u ->
  potential u thetas =
  dot thetas thetas - (1 + 1) * dot thetas u + dot u u.
Proof.
  intros H. unfold potential.
  rewrite dot_vsub_l, !dot_vsub_r by exact H.
  rewrite (dot_comm u thetas). ring.
Qed.

Lemma potential_nonneg u thetas : 0 <= potential u thetas.
Proof. apply dot_self_nonneg. Qed.

(** An update on a misclassified sample moves the weights towards any [u]
    that separates the samples widely enough. *)
Lemma potential_update u thetas x t :
  length thetas = length u -> length x = length u -> pm1 t ->
  t * dot x thetas <= 0 ->
  dot x x + 1 <= (1 + 1) * (t * dot x u) ->
  potential u (vadd thetas (vscale t x)) + 1 <= potential u thetas.
Proof.
  intros Hth Hx Ht Hm Hu.
  assert (Hlen : length thetas = length (vscale t x))
    by (now rewrite length_vscale, Hx).
  assert (E : potential u (vadd thetas (vscale t x)) =
              potential u thetas + (1 + 1) * (t * dot x thetas)
              + (t * t) * dot x x - (1 + 1) * (t * dot x u)).
  { rewrite !potential_expand
      by (try rewrite length_vadd; try exact Hth; exact Hlen).
    rewrite !dot_vadd_l, !dot_vadd_r by exact Hlen.
    rewrite !dot_vscale_l, !dot_vscale_r.
    rewrite (dot_comm thetas x). ring. }
  assert (T : t * t = 1) by (destruct Ht as [-> | ->]; ring).
  rewrite E, T. qc_lra.
Qed.

Section Convergence.

Variable d : nat.
Variables w u : vec.
Variable gamma : Qc.

(** What the argument needs of a sample: its shape, its label, the margin
    [gamma] it keeps from the hyperplane [w], and the wider margin it keeps
    from [u]. *)
Let good (s : vec * Qc) : Prop :=
  length (fst s) = d /\ pm1 (snd s) /\
  gamma <= snd s * dot (fst s) w /\
  dot (fst s) (fst s) + 1 <= (1 + 1) * (snd s * dot (fst s) u).

Hypothesis Hw : length w = d.
Hypothesis Hu : length u = d.
Hypothesis Hgamma : 0 < gamma.

(** One epoch: every mistake lowers the potential by 1 at least and raises
    the projection on [w] by [gamma] at least; an epoch without mistakes
    changes nothing and has seen every sample rightly classified. *)
Lemma epoch_progress l : forall thetas,
  Forall good l -> length thetas = d ->
  length (fst (epoch thetas l)) = d /\
  potential u (fst (epoch thetas l)) + nat2Qc (snd (epoch thetas l))
    <= potential u thetas /\
  dot thetas w + gamma * nat2Qc (snd (epoch thetas l))
    <= dot (fst (epoch thetas l)) w /\
  (snd (epoch thetas l) = 0%nat ->
   fst (epoch thetas l) = thetas /\ classifies_all thetas l).
Proof.
  induction l as [|[x t] l IH]; intros thetas Hl Hth.
  - cbn [epoch fst snd]. repeat split; try assumption;
      try (change (nat2Qc 0) with 0; qc_lra). constructor.
  - apply Forall_cons_iff in Hl. destruct Hl as [(Hx & Ht & Hg & Hm) Hl'].
    cbn [fst snd] in *. cbn [epoch].
    destruct (Qc_eqb t (Z2Qc (classify thetas x))) eqn:E.
    + destruct (IH thetas Hl' Hth) as (A & B & C & Z).
      repeat split; try assumption; try (now apply Z).
      constructor; [|now apply Z]. cbn [fst snd].
      symmetry. now apply Qc_eqb_eq.
    + set (th1 := vadd thetas (vscale t x)).
      assert (L1 : length th1 = d)
        by (unfold th1; rewrite length_vadd; rewrite ?length_vscale;
            congruence).
      destruct (IH th1 Hl' L1) as (A & B & C & _).
      pose proof (mistake_sign thetas x t Ht E) as Hs.
      pose proof (potential_update u thetas x t
                    (eq_trans Hth (eq_sym Hu)) (eq_trans Hx (eq_sym Hu))
                    Ht Hs Hm) as P.
      fold th1 in P.
      assert (W1 : dot th1 w = dot thetas w + t * dot x w).
      { unfold th1. rewrite dot_vadd_l, dot_vscale_l;
          [reflexivity | rewrite length_vscale; congruence]. }
      destruct (epoch th1 l) as [th' k]. cbn [fst snd] in *.
      rewrite nat2Qc_S. repeat split.
      * exact A.
      * qc_lra.
      * rewrite W1 in C. qc_lra.
      * discriminate.
      * discriminate.
Qed.

Variable l : list (vec * Qc).
Hypothesis Hl : Forall good l.

Lemma trajectory_progress k :
  length (trajectory l d k) = d /\
  potential u (trajectory l d (S k)) + nat2Qc (mistakes l d k)
    <= potential u (trajectory l d k) /\
  dot (trajectory l d k) w + gamma * nat2Qc (mistakes l d k)
    <= dot (trajectory l d (S k)) w /\
  (mistakes l d k = 0%nat ->
   trajectory l d (S k) = trajectory l d k /\
   classifies_all (trajectory l d k) l).
Proof.
  assert (L : forall j, length (trajectory l d j) = d).
  { induction j as [|j IH]; [apply length_zeros|].
    cbn [trajectory]. now apply (epoch_progress l _ Hl IH). }
  split; [apply L|]. unfold mistakes. cbn [trajectory].
  apply (epoch_progress l _ Hl (L k)).
Qed.

(** As long as every epoch has a mistake, the potential pays for them. *)
Lemma mistakes_bound N :
  (forall i, (i < N)%nat -> mistakes l d i <> 0%nat) ->
  potential u (trajectory l d N) + nat2Qc N <= potential u (zeros d).
Proof.
  induction N as [|N IH]; intros H.
  - change (nat2Qc 0) with 0. cbn [trajectory]. qc_lra.
  - assert (IH' := IH (fun i Hi => H i (Nat.lt_lt_succ_r _ _ Hi))).
    destruct (trajectory_progress N) as (_ & P & _).
    pose proof (nat2Qc_pos _ (H N (Nat.lt_succ_diag_r N))) as M.
    rewrite nat2Qc_S. qc_lra.
Qed.

Lemma mistakes_search N :
  (exists k, (k < N)%nat /\ mistakes l d k = 0%nat) \/
  (forall i, (i < N)%nat -> mistakes l d i <> 0%nat).
Proof.
  induction N as [|N [(k & Hk & E) | H]].
  - right. intros i Hi. lia.
  - left. exists k. split; [lia | exact E].
  - destruct (Nat.eq_dec (mistakes l d N) 0) as [E|E].
    + left. exists N. split; [lia | exact E].
    + right. intros i Hi. destruct (Nat.eq_dec i N) as [->|];
        [exact E | apply H; lia].
Qed.

(** So some epoch among the first [N] has none, once [N] exceeds the
    potential of the zero vector. *)
Lemma mistake_free_epoch N :
  potential u (zeros d) < nat2Qc N ->
  exists k, (k < N)%nat /\ mistakes l d k = 0%nat.
Proof.
  intros HN. destruct (mistakes_search N) as [H|H]; [exact H|].
  exfalso. pose proof (mistakes_bound N H) as B.
  pose proof (potential_nonneg u (trajectory l d N)) as P. qc_lra.
Qed.

(** Under a tolerance below the geometric margin, the convergence test
    passes exactly at the epochs without mistakes. *)
Lemma converged_iff_no_mistake tol k :
  0 <= tol -> tol * tol * dot w w < gamma * gamma ->
  converged_at tol l d k = true <-> mistakes l d k = 0%nat.
Proof.
  intros Ht Hm. destruct (trajectory_progress k) as (Lk & _ & W & Z).
  destruct (trajectory_progress (S k)) as (LS & _).
  unfold converged_at. split.
  - intros C. apply norm_le_true in C. destruct C as [_ C].
    destruct (Nat.eq_dec (mistakes l d k) 0) as [E|E]; [exact E|].
    exfalso. pose proof (nat2Qc_pos _ E) as M.
    set (delta := vsub (trajectory l d (S k)) (trajectory l d k)) in *.
    assert (Dw : dot delta w =
                 dot (trajectory l d (S k)) w - dot (trajectory l d k) w)
      by (unfold delta; apply dot_vsub_l; congruence).
    pose proof (cauchy_schwarz delta w) as CS.
    pose proof (dot_self_nonneg w) as Pw.
    set (a := dot delta w) in *. set (b := dot delta delta) in *.
    set (c := dot w w) in *. set (m := nat2Qc (mistakes l d k)) in *.
    set (p := dot (trajectory l d (S k)) w) in *.
    set (q := dot (trajectory l d k) w) in *.
    clearbody a b c m p q.
    assert (G : gamma <= a) by qc_nra.
    assert (G2 : gamma * gamma <= a * a) by qc_nra.
    assert (B : b * c <= tol * tol * c) by qc_nra.
    qc_lra.
  - intros E. destruct (Z E) as [-> _]. now apply norm_le_zero_change.
Qed.

End Convergence.

Lemma sumsq_nonneg l : 0 <= sumsq l.
Proof.
  induction l as [|s l IH]; cbn [sumsq]; [apply Qcle_refl|].
  pose proof (dot_self_nonneg (fst s)). qc_lra.
Qed.

Lemma sumsq_bound l s : In s l -> dot (fst s) (fst s) <= sumsq l.
Proof.
  induction l as [|s' l IH]; intros H; [contradiction|].
  cbn [sumsq]. destruct H as [-> | H].
  - pose proof (sumsq_nonneg l). qc_lra.
  - pose proof (IH H). pose proof (dot_self_nonneg (fst s')). qc_lra.
Qed.

(** A separating [w], stretched, separates as widely as the argument
    wants. *)
Lemma wide_margin d w gamma l :
  0 < gamma -> length w = d ->
  Forall (fun s => pm1 (snd s)) l -> separates w gamma l ->
  exists u, length u = d /\
    Forall (fun s => length (fst s) = d /\ pm1 (snd s) /\
                     gamma <= snd s * dot (fst s) w /\
                     dot (fst s) (fst s) + 1
                       <= (1 + 1) * (snd s * dot (fst s) u)) l.
Proof.
  intros Hg Hw Hp Hs.
  set (c := (sumsq l + 1) / ((1 + 1) * gamma)).
  assert (Hc : c * ((1 + 1) * gamma) = sumsq l + 1).
  { unfold c. field. split; [intros E; qc_lra | discriminate]. }
  pose proof (sumsq_nonneg l) as HS.
  assert (Hc0 : 0 <= c).
  { clearbody c. set (S := sumsq l) in *. clearbody S. qc_nra. }
  exists (vscale c w). split; [now rewrite length_vscale|].
  unfold separates in Hs. rewrite Forall_forall in *.
  intros s Hin. destruct (Hs s Hin) as [Hlen Hm].
  repeat split; [congruence | now apply Hp | exact Hm |].
  rewrite dot_vscale_r. pose proof (sumsq_bound l s Hin) as Hb.
  set (P := dot (fst s) w) in *. set (X := dot (fst s) (fst s)) in *.
  set (S := sumsq l) in *. set (t := snd s) in *.
  assert (Hb' : X <= S) by exact Hb.
  clearbody c P X S t. clear Hb.
  assert (M : 0 <= c * (t * P - gamma)) by qc_nra.
  qc_lra.
Qed.

Lemma first_converged_exists tol l d k : forall fuel j,
  (j <= k < j + fuel)%nat -> converged_at tol l d k = true ->
  exists k', first_converged tol l d fuel j = Some k'.
Proof.
  induction fuel as [|fuel IH]; intros j B C; [lia|]. cbn [first_converged].
  destruct (converged_at tol l d j) eqn:E; [now exists j|].
  apply IH; [|exact C].
  destruct (Nat.eq_dec j k) as [->|]; [congruence | lia].
Qed.

Lemma nat_above (q : Qc) : 0 <= q -> exists N, q < nat2Qc N.
Proof.
  intros H. exists (Z.to_nat (Qfloor (this q) + 1)).
  assert (F : (0 <= Qfloor (this q))%Z).
  { change 0%Z with (Qfloor 0). apply Qfloor_resp_le. exact H. }
  unfold nat2Qc. rewrite Z2Nat.id by lia.
  unfold Qclt, Z2Qc, Q2Qc. cbn [this]. rewrite Qred_correct.
  apply Qlt_floor.
Qed.

Section PerceptronSeparable.
Variable poly_terms : Z -> vec -> vec.
Variable poly_width : Z -> nat -> nat.


End PerceptronSeparable.



(* ===================================================================== *)
(** * Further properties of the code *)
(* ===================================================================== *)

(** ** What [fit] leaves alone *)

Lemma preserves_ret {S A K} (proj : S -> K) (a : A) : preserves proj (ret a).
Proof. intros s. reflexivity. Qed.

Lemma preserves_raise {S A K} (proj : S -> K) e :
  preserves proj (@raise S A e).
Proof. intros s. reflexivity. Qed.

Lemma preserves_out_of_fuel {S A K} (proj : S -> K) :
  preserves proj (@out_of_fuel S A).
Proof. intros s. reflexivity. Qed.

Lemma preserves_lift {S A K} (proj : S -> K) (r : exn + A) :
  preserves proj (lift r).
Proof. intros s. destruct r; reflexivity. Qed.

Lemma preserves_gets {S A K} (proj : S -> K) (f : S -> A) :
  preserves proj (gets f).
Proof. intros s. reflexivity. Qed.

Lemma preserves_modify {S K} (proj : S -> K) (g : S -> S) :
  (forall s, proj (g s) = proj s) -> preserves proj (modify g).
Proof. intros H s. apply H. Qed.

Lemma preserves_bind {S A B K} (proj : S -> K) (c : M S A) (k : A -> M S B) :
  preserves proj c -> (forall a, preserves proj (k a)) ->
  preserves proj (bind c k).
Proof.
  intros Hc Hk s. unfold bind. specialize (Hc s).
  destruct (c s) as [s' [a|e|]]; cbn [fst] in *;
    [rewrite Hk; exact Hc | exact Hc ..].
Qed.

Lemma preserves_for_each {S A B K} (proj : S -> K) (l : list A)
    (body : B -> A -> M S B) :
  (forall b a, preserves proj (body b a)) ->
  forall acc, preserves proj (for_each l body acc).
Proof.
  intros H. induction l as [|a l IH]; intros acc; cbn [for_each].
  - apply preserves_ret.
  - apply preserves_bind; [apply H | intros b; apply IH].
Qed.

Lemma preserves_for_range {S K} (proj : S -> K) n (body : M S unit) :
  preserves proj body -> preserves proj (for_range n body).
Proof.
  intros H. induction n as [|n IH]; cbn [for_range].
  - apply preserves_ret.
  - apply preserves_bind; [exact H | intros _; exact IH].
Qed.

Ltac preserves_step :=
  first
    [ apply preserves_bind; [|intros ?]
    | apply preserves_ret
    | apply preserves_raise
    | apply preserves_lift
    | apply preserves_gets
    | apply preserves_modify; intros ?; reflexivity ].

Lemma preserves_visit e sample :
  preserves perceptron_hyper (Perceptron.visit e sample).
Proof.
  destruct sample as [x t]. unfold Perceptron.visit, Perceptron.predict.
  apply preserves_bind; [repeat preserves_step | intros p].
  destruct (negb _); repeat preserves_step.
Qed.

Lemma preserves_while fuel X y : forall idx w,
  preserves perceptron_hyper (Perceptron.while_not_converged fuel X y idx w).
Proof.
  induction fuel as [|fuel IH]; intros idx w;
    cbn [Perceptron.while_not_converged].
  - apply preserves_out_of_fuel.
  - apply preserves_bind; [apply preserves_gets | intros prev].
    apply preserves_bind;
      [apply preserves_for_each; intros; apply preserves_visit | intros e].
    apply preserves_bind.
    { unfold errors_append. apply preserves_bind;
        [apply preserves_gets | intros [es|]]; repeat preserves_step. }
    intros _. apply preserves_bind; [apply preserves_gets | intros th].
    apply preserves_bind; [apply preserves_gets | intros tl].
    destruct (norm_le _ _); [apply preserves_ret | apply IH].
Qed.

(** X1.  [Perceptron.fit] never assigns a hyperparameter: whatever the
    input (well shaped or not) and however the call ends, [degree], [bias]
    and [tol] are as they were. *)
Theorem Perceptron_fit_keeps_hyperparameters
    (poly_terms : Z -> vec -> vec) (poly_width : Z -> nat -> nat)
    fuel X y self :
  let s' := fst (Perceptron.fit poly_terms poly_width fuel X y self) in
  degree s' = degree self /\ bias s' = bias self /\ tol s' = tol self.
Proof.
  assert (P : preserves perceptron_hyper
                (Perceptron.fit poly_terms poly_width fuel X y)).
  { unfold Perceptron.fit.
    do 5 (apply preserves_bind; [repeat preserves_step | intros ?]).
    apply preserves_bind; [apply preserves_while | intros ?].
    repeat preserves_step. }
  specialize (P self). unfold perceptron_hyper in P.
  injection P as E1 E2 E3. cbv zeta. auto.
Qed.

(** ** The history and the trajectory that [Perceptron.fit] leaves *)

Lemma epoch_no_mistake_fixed l : forall th,
  snd (epoch th l) = 0%nat -> fst (epoch th l) = th.
Proof.
  induction l as [|[x t] l IH]; intros th H; [reflexivity|].
  cbn [epoch] in *.
  destruct (Qc_eqb t (Z2Qc (classify th x))); [now apply IH|].
  destruct (epoch (vadd th (vscale t x)) l). discriminate.
Qed.

Lemma epoch_mistakes_le l : forall th, (snd (epoch th l) <= length l)%nat.
Proof.
  induction l as [|[x t] l IH]; intros th; [apply Nat.le_refl|].
  cbn [epoch length].
  destruct (Qc_eqb t (Z2Qc (classify th x))).
  - specialize (IH th). lia.
  - specialize (IH (vadd th (vscale t x))).
    destruct (epoch (vadd th (vscale t x)) l). cbn [snd] in *. lia.
Qed.

(** An epoch without mistakes passes the convergence test of any
    tolerance that is not negative. *)
Lemma no_mistake_converged tol l d i :
  0 <= tol -> mistakes l d i = 0%nat -> converged_at tol l d i = true.
Proof.
  intros Ht E. unfold converged_at, mistakes in *. cbn [trajectory].
  rewrite (epoch_no_mistake_fixed _ _ E). now apply norm_le_zero_change.
Qed.

Lemma first_converged_negative tol l d fuel : forall j,
  tol < 0 -> first_converged tol l d fuel j = None.
Proof.
  induction fuel as [|fuel IH]; intros j H; [reflexivity|].
  cbn [first_converged]. unfold converged_at, norm_le.
  replace (Qc_leb 0 tol) with false by (symmetry; now apply Qc_leb_gt).
  cbn [andb]. now apply IH.
Qed.

Lemma nth_map_seq_nat (f : nat -> nat) n i :
  (i < n)%nat -> nth i (map f (seq 0 n)) 0%nat = f i.
Proof.
  intros H. rewrite (nth_indep _ 0%nat (f 0%nat))
    by now rewrite length_map, length_seq.
  rewrite map_nth, seq_nth by exact H. reflexivity.
Qed.

Section PerceptronHistory.
Variable poly_terms : Z -> vec -> vec.
Variable poly_width : Z -> nat -> nat.

Abbreviation pfit := (Perceptron.fit poly_terms poly_width).
Abbreviation pdesign := (Perceptron.design poly_terms poly_width).

(** [fit] when the loop has stopped after epoch [k]. *)
Lemma fit_stopped self X y fuel D k :
  pdesign self X = inr D -> is_2d D ->
  first_converged (tol self) (samples D y) (shape1 D) fuel 0 = Some k ->
  snd (pfit fuel X y self) <> OutOfFuel /\
  thetas (fst (pfit fuel X y self)) =
    trajectory (samples D y) (shape1 D) (S k) /\
  errors (fst (pfit fuel X y self)) =
    Some (map (mistakes (samples D y) (shape1 D)) (seq 0 (S k))).
Proof.
  intros HD H2 F. rewrite (fit_run poly_terms poly_width self X y fuel D HD H2).
  rewrite F. destruct (shape1 D =? 3)%nat; cbn [fst snd];
    (split; [discriminate | split; reflexivity]).
Qed.

(** [fit] when the loop is still running after [fuel] epochs. *)
Lemma fit_running self X y fuel D :
  pdesign self X = inr D -> is_2d D ->
  first_converged (tol self) (samples D y) (shape1 D) fuel 0 = None ->
  snd (pfit fuel X y self) = OutOfFuel /\
  thetas (fst (pfit fuel X y self)) =
    trajectory (samples D y) (shape1 D) fuel /\
  errors (fst (pfit fuel X y self)) =
    Some (map (mistakes (samples D y) (shape1 D)) (seq 0 fuel)).
Proof.
  intros HD H2 F. rewrite (fit_run poly_terms poly_width self X y fuel D HD H2).
  rewrite F. repeat split.
Qed.

(** X3.  With a tolerance that is not negative, the loop of
    [Perceptron.fit] never goes on after an epoch without mistakes: in the
    history [errors], every entry but the last counts at least one
    mistake. *)
Theorem Perceptron_history_zero_only_last self X y fuel D es :
  pdesign self X = inr D -> is_2d D -> 0 <= tol self ->
  errors (fst (pfit fuel X y self)) = Some es ->
  forall i, (S i < length es)%nat -> nth i es 0%nat <> 0%nat.
Proof.
  intros HD H2 Ht He i Hi.
  destruct (first_converged (tol self) (samples D y) (shape1 D) fuel 0)
    as [k|] eqn:F.
  - destruct (fit_stopped self X y fuel D k HD H2 F) as (_ & _ & E).
    assert (es = map (mistakes (samples D y) (shape1 D)) (seq 0 (S k)))
      by congruence. subst es.
    rewrite length_map, length_seq in Hi.
    rewrite nth_map_seq_nat by lia. intros Z.
    apply first_converged_some in F. destruct F as (_ & _ & N).
    specialize (N i ltac:(lia)).
    rewrite (no_mistake_converged _ _ _ _ Ht Z) in N. discriminate.
  - destruct (fit_running self X y fuel D HD H2 F) as (_ & _ & E).
    assert (es = map (mistakes (samples D y) (shape1 D)) (seq 0 fuel))
      by congruence. subst es.
    rewrite length_map, length_seq in Hi.
    rewrite nth_map_seq_nat by lia. intros Z.
    pose proof (first_converged_none _ _ _ _ _ F i ltac:(lia)) as N.
    rewrite (no_mistake_converged _ _ _ _ Ht Z) in N. discriminate.
Qed.

(** X4.  With a negative tolerance the convergence test never passes:
    however many epochs [Perceptron.fit] is given, it is still running
    after them, with one history entry per epoch. *)
Theorem Perceptron_negative_tol_never_stops self X y D :
  pdesign self X = inr D -> is_2d D -> tol self < 0 ->
  forall fuel,
    snd (pfit fuel X y self) = OutOfFuel /\
    option_map (@length nat) (errors (fst (pfit fuel X y self))) = Some fuel.
Proof.
  intros HD H2 Ht fuel.
  destruct (fit_running self X y fuel D HD H2
              (first_converged_negative _ _ _ _ _ Ht)) as (O & _ & E).
  split; [exact O|]. rewrite E. cbn [option_map].
  now rewrite length_map, length_seq.
Qed.

(** X5.  No entry of the history exceeds the number of (sample, label)
    pairs, the shorter of the rows and the labels. *)
Theorem Perceptron_history_bounded self X y fuel D es :
  pdesign self X = inr D -> is_2d D ->
  errors (fst (pfit fuel X y self)) = Some es ->
  Forall (fun e => (e <= Nat.min (shape0 D) (length y))%nat) es.
Proof.
  intros HD H2 He.
  assert (B : forall m,
    Forall (fun e => (e <= Nat.min (shape0 D) (length y))%nat)
           (map (mistakes (samples D y) (shape1 D)) (seq 0 m))).
  { intros m. apply Forall_map, Forall_forall. intros i _.
    unfold mistakes, shape0. rewrite <- length_combine.
    apply epoch_mistakes_le. }
  destruct (first_converged (tol self) (samples D y) (shape1 D) fuel 0)
    as [k|] eqn:F.
  - destruct (fit_stopped self X y fuel D k HD H2 F) as (_ & _ & E).
    assert (es = map (mistakes (samples D y) (shape1 D)) (seq 0 (S k)))
      by congruence. subst es. apply B.
  - destruct (fit_running self X y fuel D HD H2 F) as (_ & _ & E).
    assert (es = map (mistakes (samples D y) (shape1 D)) (seq 0 fuel))
      by congruence. subst es. apply B.
Qed.

End PerceptronHistory.

Lemma snapshots_index l d n :
  map fst (snapshots l d (-1) 0 n) = map Z.of_nat (seq 0 n).
Proof.
  unfold snapshots. rewrite map_map. apply map_ext. intros i. cbn [fst]. lia.
Qed.

Lemma snapshots_last l d n :
  last (map snd (snapshots l d (-1) 0 (S n))) [] = trajectory l d (S n).
Proof.
  unfold snapshots. rewrite map_map, seq_S, map_app. cbn [map snd Nat.add].
  apply last_last.
Qed.

Lemma vadd_vscale_0 th : forall x,
  length x = length th -> vadd th (vscale 0 x) = th.
Proof.
  induction th as [|a th IH]; intros [|b x] H; cbn in *; try discriminate;
    [reflexivity|].
  unfold vscale in IH. rewrite IH by lia. f_equal. ring.
Qed.

Lemma classify_zeros d x : classify (zeros d) x = 1%Z.
Proof. unfold classify. now rewrite dot_zeros_r. Qed.

(** From zero weights, labels 0 and 1 teach nothing: a label 1 is what the
    zero weights predict, and the update for a label 0 adds the zero
    vector. *)
Lemma epoch_zeros_01 d l :
  Forall (fun s => length (fst s) = d /\ (snd s = 0 \/ snd s = 1)) l ->
  epoch (zeros d) l = (zeros d, zero_labels l).
Proof.
  induction l as [|[x t] l IH]; intros H; [reflexivity|].
  apply Forall_cons_iff in H. destruct H as [[Hx Ht] Hl]. cbn [fst snd] in *.
  cbn [epoch]. rewrite classify_zeros, Z2Qc_1. unfold zero_labels.
  cbn [filter snd]. destruct Ht as [-> | ->].
  - replace (Qc_eqb 0 1) with false by reflexivity.
    replace (Qc_eqb 0 0) with true by reflexivity.
    rewrite vadd_vscale_0 by (now rewrite length_zeros).
    rewrite (IH Hl). reflexivity.
  - replace (Qc_eqb 1 1) with true by reflexivity.
    replace (Qc_eqb 1 0) with false by reflexivity.
    exact (IH Hl).
Qed.

Lemma bind_ext {S A B} (c : M S A) (k1 k2 : A -> M S B) s :
  (forall a s', k1 a s' = k2 a s') -> bind c k1 s = bind c k2 s.
Proof.
  intros H. unfold bind. destruct (c s) as [s' [a|e|]]; [apply H | reflexivity ..].
Qed.

Lemma bind_ext_ret {S A B} (c : M S A) (k1 k2 : A -> M S B) s :
  (forall a s', c s = (s', Ret a) -> k1 a s' = k2 a s') ->
  bind c k1 s = bind c k2 s.
Proof.
  intros H. unfold bind.
  destruct (c s) as [s' [a|e|]]; [now apply H | reflexivity ..].
Qed.

Lemma combine_app_r {A B} (l : list A) : forall (y extra : list B),
  (length l <= length y)%nat -> combine l (y ++ extra) = combine l y.
Proof.
  induction l as [|a l IH]; intros [|b y] extra H; cbn in *;
    try reflexivity; try lia.
  f_equal. apply IH. lia.
Qed.

(** The loop sees the rows and the labels only as the pairs of [zip]. *)
Lemma while_same_pairs D y1 y2 :
  combine (rows D) y1 = combine (rows D) y2 ->
  forall fuel idx w s,
    Perceptron.while_not_converged fuel D y1 idx w s =
    Perceptron.while_not_converged fuel D y2 idx w s.
Proof.
  intros E. induction fuel as [|fuel IH]; intros idx w s; [reflexivity|].
  cbn [Perceptron.while_not_converged]. rewrite E.
  repeat (apply bind_ext; intros ? ?).
  destruct (norm_le _ _); [reflexivity | apply IH].
Qed.

Section PerceptronEdges.
Variable poly_terms : Z -> vec -> vec.
Variable poly_width : Z -> nat -> nat.

Lemma design_rows self X D :
  Perceptron.design poly_terms poly_width self X = inr D ->
  length (rows D) = shape0 X /\ (rows X = [] -> rows D = []).
Proof.
  unfold Perceptron.design, NeuralBase.make_polynomial. intros H.
  destruct (degree self <? 1)%Z; [discriminate|]. injection H as <-.
  cbn [rows]. split; [apply length_map | now intros ->].
Qed.

(** X6.  When [Perceptron.fit] returns, the weight-trajectory frame has
    one row per epoch, indexed 0, 1, 2, ... like the entries of the history
    [errors]; every row has three entries, and the last row is the final
    weight vector [thetas]. *)
Theorem Perceptron_weights_frame self X y fuel D :
  Perceptron.design poly_terms poly_width self X = inr D -> is_2d D ->
  snd (Perceptron.fit poly_terms poly_width fuel X y self) = Ret tt ->
  exists df es,
    weights (fst (Perceptron.fit poly_terms poly_width fuel X y self))
      = Some df /\
    errors (fst (Perceptron.fit poly_terms poly_width fuel X y self))
      = Some es /\
    df_index df = map Z.of_nat (seq 0 (length es)) /\
    length (df_values df) = length es /\
    Forall (fun r => length r = 3%nat) (df_values df) /\
    last (df_values df) [] =
      thetas (fst (Perceptron.fit poly_terms poly_width fuel X y self)).
Proof.
  intros HD H2. rewrite (fit_run poly_terms poly_width self X y fuel D HD H2).
  destruct (first_converged (tol self) (samples D y) (shape1 D) fuel 0)
    as [k|]; [|discriminate].
  destruct (shape1 D =? 3)%nat eqn:E3; [|discriminate]. intros _.
  apply Nat.eqb_eq in E3. cbn [fst].
  eexists. eexists. split; [reflexivity|]. split; [reflexivity|].
  cbn [df_index df_values]. rewrite !length_map, length_seq, length_snapshots.
  split; [apply snapshots_index|]. split; [reflexivity|]. split.
  - apply Forall_map, Forall_forall. intros [i v] Hin.
    unfold snapshots in Hin. apply in_map_iff in Hin.
    destruct Hin as (j & Hj & _).
    assert (v = trajectory (samples D y) (shape1 D) (S (0 + j)))
      by congruence. subst v. cbn [snd].
    rewrite length_trajectory by (now apply samples_2d). exact E3.
  - apply snapshots_last.
Qed.

(** X7.  [zip] pairs rows and labels up to the shorter of the two:
    labels beyond the last row are never read, and [Perceptron.fit] ends
    as it does without them; no shape error is raised. *)
Theorem Perceptron_fit_ignores_extra_labels self X y extra fuel :
  (shape0 X <= length y)%nat ->
  Perceptron.fit poly_terms poly_width fuel X (y ++ extra) self =
  Perceptron.fit poly_terms poly_width fuel X y self.
Proof.
  intros H. unfold Perceptron.fit.
  apply bind_ext; intros dg s1. apply bind_ext; intros bs s2.
  apply bind_ext_ret; intros D s3 L.
  assert (HD : length (rows D) = shape0 X).
  { unfold lift, NeuralBase.make_polynomial in L.
    destruct (dg <? 1)%Z; [discriminate|]. cbn in L.
    injection L as _ <-. cbn [rows]. apply length_map. }
  apply bind_ext; intros ? ?. apply bind_ext; intros ? ?.
  unfold bind.
  rewrite (while_same_pairs D (y ++ extra) y)
    by (apply combine_app_r; lia).
  reflexivity.
Qed.

(** X8.  On empty training data (no rows, or no labels) and with a
    tolerance that is not negative, [Perceptron.fit] runs one epoch and
    stops: the weights are the zero vector and the history is [[0]]. *)
Theorem Perceptron_fit_empty_data self X y fuel D :
  Perceptron.design poly_terms poly_width self X = inr D -> is_2d D ->
  0 <= tol self -> rows X = [] \/ y = [] ->
  snd (Perceptron.fit poly_terms poly_width (S fuel) X y self)
    <> OutOfFuel /\
  thetas (fst (Perceptron.fit poly_terms poly_width (S fuel) X y self))
    = zeros (shape1 D) /\
  errors (fst (Perceptron.fit poly_terms poly_width (S fuel) X y self))
    = Some [0%nat].
Proof.
  intros HD H2 Ht He.
  assert (El : samples D y = []).
  { unfold samples. destruct He as [E | ->].
    - now rewrite (proj2 (design_rows self X D HD) E).
    - now destruct (rows D). }
  assert (F : first_converged (tol self) (samples D y) (shape1 D)
                (S fuel) 0 = Some 0%nat).
  { cbn [first_converged]. rewrite no_mistake_converged;
      [reflexivity | exact Ht | now rewrite El]. }
  destruct (fit_stopped poly_terms poly_width self X y (S fuel) D 0 HD H2 F)
    as (O & T & E).
  rewrite T, E, El. repeat split. exact O.
Qed.

(** X9.  With labels coded 0 and 1 (and a tolerance that is not negative)
    [Perceptron.fit] learns nothing: it stops after the first epoch with
    the zero weight vector, and the one entry of the history is the number
    of samples labelled 0, each counted as a mistake. *)
Theorem Perceptron_fit_labels_0_1 self X y fuel D :
  Perceptron.design poly_terms poly_width self X = inr D -> is_2d D ->
  0 <= tol self -> Forall (fun t => t = 0 \/ t = 1) y ->
  snd (Perceptron.fit poly_terms poly_width (S fuel) X y self)
    <> OutOfFuel /\
  thetas (fst (Perceptron.fit poly_terms poly_width (S fuel) X y self))
    = zeros (shape1 D) /\
  errors (fst (Perceptron.fit poly_terms poly_width (S fuel) X y self))
    = Some [zero_labels (samples D y)].
Proof.
  intros HD H2 Ht Hy.
  assert (Ep : epoch (zeros (shape1 D)) (samples D y) =
               (zeros (shape1 D), zero_labels (samples D y))).
  { apply epoch_zeros_01. pose proof (samples_2d D y H2) as Hl.
    rewrite Forall_forall in *. intros [x t] Hin. split; [now apply Hl|].
    apply Hy. now apply in_combine_r in Hin. }
  assert (F : first_converged (tol self) (samples D y) (shape1 D)
                (S fuel) 0 = Some 0%nat).
  { cbn [first_converged]. unfold converged_at. cbn [trajectory].
    rewrite Ep. cbn [fst]. now rewrite norm_le_zero_change. }
  destruct (fit_stopped poly_terms poly_width self X y (S fuel) D 0 HD H2 F)
    as (O & T & E).
  rewrite T, E. cbn [trajectory seq map]. unfold mistakes.
  cbn [trajectory]. rewrite Ep. repeat split. exact O.
Qed.

End PerceptronEdges.

(** [fit], once the design matrix is built and the attributes are reset. *)
Lemma fit_after_reset
    (poly_terms : Z -> vec -> vec) (poly_width : Z -> nat -> nat)
    fuel X y self D :
  Perceptron.design poly_terms poly_width self X = inr D ->
  Perceptron.fit poly_terms poly_width fuel X y self =
  (weights <- Perceptron.while_not_converged fuel D y (-1) [] ;;
   df <- lift (DataFrame_from_dict weights weight_columns) ;;
   modify (set_weights (Some df)))
    (set_errors (Some []) (set_thetas (zeros (shape1 D)) self)).
Proof.
  intros HD. unfold Perceptron.design in HD. unfold Perceptron.fit.
  cbn [bind gets]. unfold bind at 1. rewrite HD. reflexivity.
Qed.

(** X10.  [Perceptron.fit] starts from scratch: the [thetas] and the
    [errors] an instance carries from an earlier call have no effect.  Two
    instances with the same hyperparameters and the same [weights] frame
    end a call on the same data in the same state, the same way. *)
Theorem Perceptron_fit_from_scratch
    (poly_terms : Z -> vec -> vec) (poly_width : Z -> nat -> nat)
    fuel X y s1 s2 D :
  Perceptron.design poly_terms poly_width s1 X = inr D ->
  degree s1 = degree s2 -> bias s1 = bias s2 -> tol s1 = tol s2 ->
  weights s1 = weights s2 ->
  Perceptron.fit poly_terms poly_width fuel X y s1 =
  Perceptron.fit poly_terms poly_width fuel X y s2.
Proof.
  intros HD Ed Eb Et Ew.
  rewrite (fit_after_reset poly_terms poly_width fuel X y s1 D HD).
  rewrite (fit_after_reset poly_terms poly_width fuel X y s2 D)
    by (unfold Perceptron.design in *; now rewrite <- Ed, <- Eb).
  replace (set_errors (Some []) (set_thetas (zeros (shape1 D)) s2))
    with (set_errors (Some []) (set_thetas (zeros (shape1 D)) s1));
    [reflexivity|].
  unfold set_errors, set_thetas. cbn [thetas weights degree bias tol errors].
  now rewrite Ed, Eb, Et, Ew.
Qed.

(** ** AdalineGD: what [fit] leaves alone, and how calls compose *)

Lemma preserves_iteration D y n :
  preserves adaline_hyper (AdalineGD.iteration D y n).
Proof. unfold AdalineGD.iteration. repeat preserves_step. Qed.

(** X11.  [AdalineGD.fit] never assigns a hyperparameter: whatever the
    input and however the call ends, [eta], [niter], [bias] and [degree]
    are as they were. *)
Theorem AdalineGD_fit_keeps_hyperparameters
    (poly_terms : Z -> vec -> vec) (poly_width : Z -> nat -> nat)
    X y self :
  let s' := fst (AdalineGD.fit poly_terms poly_width X y self) in
  AdalineGD.eta s' = AdalineGD.eta self /\
  AdalineGD.niter s' = AdalineGD.niter self /\
  AdalineGD.bias s' = AdalineGD.bias self /\
  AdalineGD.degree s' = AdalineGD.degree self.
Proof.
  assert (P : preserves adaline_hyper
                (AdalineGD.fit poly_terms poly_width X y)).
  { unfold AdalineGD.fit.
    do 4 (apply preserves_bind; [repeat preserves_step | intros ?]).
    apply preserves_for_range, preserves_iteration. }
  specialize (P self). unfold adaline_hyper in P.
  injection P as E1 E2 E3 E4. cbv zeta. auto.
Qed.

Section AdalineRuns.
Variable poly_terms : Z -> vec -> vec.
Variable poly_width : Z -> nat -> nat.

Abbreviation gfit := (AdalineGD.fit poly_terms poly_width).
Abbreviation gdesign := (AdalineGD.design poly_terms poly_width).

Lemma adaline_design_shape self X D :
  AdalineGD.degree self = 1%Z -> gdesign self X = inr D -> is_2d X ->
  shape1 D = (1 + shape1 X)%nat /\ shape0 D = shape0 X /\ is_2d D.
Proof.
  intros Hd HD H2.
  destruct (adaline_design_degree1 poly_terms poly_width self X D Hd HD)
    as [Hs Hr].
  split; [exact Hs|]. split.
  - unfold shape0. now rewrite Hr, length_map.
  - unfold is_2d. rewrite Hr, Hs. apply Forall_map.
    unfold is_2d in H2. eapply Forall_impl; [|exact H2].
    intros r E. cbn. now rewrite E.
Qed.

(** [fit] on well-shaped data, in full. *)
Lemma afit_run self X y D :
  AdalineGD.degree self = 1%Z -> gdesign self X = inr D ->
  is_2d X -> length y = shape0 X ->
  gfit X y self =
  (AdalineGD.set_cost
     (AdalineGD.cost self ++
      AdalineSpec.costs (AdalineGD.eta self) D y
        (Z.to_nat (AdalineGD.niter self)))
     (AdalineGD.set_thetas
        (Some (AdalineSpec.trajectory (AdalineGD.eta self) D y
                 (Z.to_nat (AdalineGD.niter self))))
        self),
   Ret tt).
Proof.
  intros Hd HD H2 Hy.
  destruct (adaline_design_shape self X D Hd HD H2) as (Hs & H0 & H2D).
  unfold AdalineGD.fit. cbn [bind modify gets].
  unfold AdalineGD.design in HD. unfold bind at 1.
  cbn [AdalineGD.degree AdalineGD.set_thetas]. rewrite HD.
  cbn [lift ret bind gets AdalineGD.niter]. rewrite <- H0.
  rewrite (for_range_iteration D y H2D (eq_trans Hy (eq_sym H0)) _ _ 0%nat)
    by (cbn [AdalineGD.thetas AdalineSpec.trajectory]; now rewrite Hs).
  destruct self as [e n c b t dg]. reflexivity.
Qed.

(** X12.  Calls of [AdalineGD.fit] on one instance pile up their costs:
    the weights after a second call on the same data are those after the
    first, and the cost history is the history before the calls followed
    by the [niter] costs of the run twice over. *)
Theorem AdalineGD_fit_twice_history self X y D :
  AdalineGD.degree self = 1%Z -> gdesign self X = inr D ->
  is_2d X -> length y = shape0 X -> shape0 X <> 0%nat ->
  let c := AdalineSpec.costs (AdalineGD.eta self) D y
             (Z.to_nat (AdalineGD.niter self)) in
  let once := fst (gfit X y self) in
  let twice := fst (gfit X y once) in
  AdalineGD.thetas twice = AdalineGD.thetas once /\
  AdalineGD.cost once = AdalineGD.cost self ++ c /\
  AdalineGD.cost twice = AdalineGD.cost self ++ c ++ c /\
  length (AdalineGD.cost twice) =
    (length (AdalineGD.cost self)
     + 2 * Z.to_nat (AdalineGD.niter self))%nat.
Proof.
  intros Hd HD H2 Hy _ c once twice. subst once twice.
  rewrite (afit_run self X y D Hd HD H2 Hy). cbn [fst].
  erewrite afit_run; [|exact Hd|exact HD|exact H2|exact Hy].
  cbn [fst AdalineGD.thetas AdalineGD.cost AdalineGD.set_cost
       AdalineGD.set_thetas AdalineGD.eta AdalineGD.niter].
  fold c. rewrite <- app_assoc. repeat split.
  rewrite !length_app. unfold c, AdalineSpec.costs.
  rewrite length_map, length_seq. lia.
Qed.

End AdalineRuns.

(** ** AdalineGD: labels of the wrong length *)

Lemma broadcast_sub_mismatch u v :
  length u <> length v -> length u <> 1%nat ->
  broadcast_sub u v = inl ValueError \/
  exists b, v = [b] /\ broadcast_sub u v = inr (map (fun a => a - b) u).
Proof.
  intros Hne H1. unfold broadcast_sub.
  apply Nat.eqb_neq in Hne. rewrite Hne.
  destruct u as [|a [|a' u]]; cbn in H1; try congruence;
    destruct v as [|b [|b' v]]; try (left; reflexivity);
    right; exists b; split; reflexivity.
Qed.

Lemma broadcast_sub_single a v :
  broadcast_sub [a] v = broadcast_sub (repeat a (length v)) v.
Proof.
  unfold broadcast_sub. rewrite repeat_length, Nat.eqb_refl.
  assert (E : vsub (repeat a (length v)) v = map (fun b => a - b) v).
  { induction v as [|b v IH]; [reflexivity|]. cbn. now rewrite IH. }
  rewrite E. destruct v as [|b [|b' v]]; reflexivity.
Qed.

Lemma net_input_self_length D th net :
  AdalineGD.net_input_self D th = inr net -> length net = shape0 D.
Proof.
  destruct th as [th|]; [|discriminate]. cbn. unfold NeuralBase.net_input_2d.
  destruct (shape1 D =? length th)%nat; [|discriminate].
  intros H. injection H as <-. apply length_map.
Qed.

Lemma for_range_ext {S} n (b1 b2 : M S unit) :
  (forall s, b1 s = b2 s) -> forall s, for_range n b1 s = for_range n b2 s.
Proof.
  intros H. induction n as [|n IH]; intros s; [reflexivity|].
  cbn [for_range]. unfold bind. rewrite H.
  destruct (b2 s) as [s' [[]|e|]]; [apply IH | reflexivity ..].
Qed.

Lemma iteration_single_label D a n s :
  AdalineGD.iteration D [a] n s =
  AdalineGD.iteration D (repeat a (shape0 D)) n s.
Proof.
  unfold AdalineGD.iteration. apply bind_ext; intros th s1.
  apply bind_ext_ret; intros net s2 L.
  assert (Hn : length net = shape0 D).
  { unfold lift in L.
    destruct (AdalineGD.net_input_self D th) as [e|v] eqn:E;
      [discriminate|]. injection L as _ <-.
    now apply (net_input_self_length D th). }
  unfold AdalineGD.activation. rewrite <- Hn, <- broadcast_sub_single.
  reflexivity.
Qed.

Lemma bind_gets {S A B} (f : S -> A) (k : A -> M S B) s :
  bind (gets f) k s = k (f s) s.
Proof. reflexivity. Qed.

Lemma bind_lift_inr {S A B} (a : A) (k : A -> M S B) s :
  bind (lift (inr a)) k s = k a s.
Proof. reflexivity. Qed.

Lemma bind_lift_inl {S A B} e (k : A -> M S B) s :
  bind (lift (inl e)) k s = (s, Raise e).
Proof. reflexivity. Qed.

Lemma bind_modify {S B} (g : S -> S) (k : unit -> M S B) s :
  bind (modify g) k s = k tt (g s).
Proof. reflexivity. Qed.

Lemma iteration_label_mismatch D y n s th :
  AdalineGD.thetas s = Some th -> shape1 D = length th ->
  length y <> shape0 D -> length y <> 1%nat ->
  AdalineGD.iteration D y n s = (s, Raise ValueError).
Proof.
  intros Hth Hs Hy H1. unfold AdalineGD.iteration.
  rewrite bind_gets, Hth. cbn [AdalineGD.net_input_self].
  unfold NeuralBase.net_input_2d. rewrite Hs, Nat.eqb_refl, bind_lift_inr.
  unfold AdalineGD.activation.
  set (net := map _ (rows D)).
  assert (Ln : length net = shape0 D) by (unfold net; apply length_map).
  destruct (broadcast_sub_mismatch y net) as [E | (b & Eb & E)];
    [congruence | exact H1 | |]; rewrite E;
    [now rewrite bind_lift_inl|].
  rewrite bind_lift_inr, bind_gets. unfold matvec, mscale, transpose.
  cbn [shape1]. rewrite length_map.
  replace (shape0 D) with 1%nat by (rewrite Eb in Ln; cbn in Ln; congruence).
  apply Nat.eqb_neq in H1. rewrite Nat.eqb_sym, H1.
  now rewrite bind_lift_inl.
Qed.

Section AdalineLabels.
Variable poly_terms : Z -> vec -> vec.
Variable poly_width : Z -> nat -> nat.

(** X13.  A label vector [y] whose length is neither the number of rows
    nor 1 makes [AdalineGD.fit] raise [ValueError] in its first iteration
    (from the subtraction, or from the matrix product when there is one
    row): the weights are left at the zero vector and the cost history is
    untouched. *)
Theorem AdalineGD_fit_label_mismatch self X y :
  AdalineGD.degree self = 1%Z -> (0 < AdalineGD.niter self)%Z ->
  length y <> shape0 X -> length y <> 1%nat ->
  AdalineGD.fit poly_terms poly_width X y self =
  (AdalineGD.set_thetas (Some (zeros (1 + shape1 X))) self, Raise ValueError).
Proof.
  intros Hd Hn Hy H1. unfold AdalineGD.fit.
  rewrite bind_modify. cbv zeta. rewrite bind_gets.
  cbn [AdalineGD.degree AdalineGD.set_thetas]. rewrite Hd.
  unfold NeuralBase.make_polynomial.
  change (1 <? 1)%Z with false. change (1 =? 1)%Z with true. cbv iota.
  rewrite bind_lift_inr, bind_gets.
  change (AdalineGD.niter (AdalineGD.set_thetas _ self))
    with (AdalineGD.niter self).
  destruct (Z.to_nat (AdalineGD.niter self)) as [|k] eqn:Ek; [lia|].
  cbn [for_range]. unfold bind.
  erewrite iteration_label_mismatch; [reflexivity | reflexivity | | | exact H1].
  - cbn [shape1]. rewrite length_zeros. lia.
  - unfold shape0 in *. cbn [rows]. now rewrite length_map.
Qed.

(** X14.  A label vector with a single entry is broadcast to all rows:
    [AdalineGD.fit] ends as it does for that label repeated once per
    row. *)
Theorem AdalineGD_fit_single_label_broadcast self X a :
  AdalineGD.fit poly_terms poly_width X [a] self =
  AdalineGD.fit poly_terms poly_width X (repeat a (shape0 X)) self.
Proof.
  unfold AdalineGD.fit. apply bind_ext; intros ? s1.
  cbv zeta. apply bind_ext; intros dg s2.
  apply bind_ext_ret; intros D s3 L.
  assert (HD : shape0 D = shape0 X).
  { unfold lift, NeuralBase.make_polynomial in L.
    destruct (dg <? 1)%Z; [discriminate|]. cbn in L.
    injection L as _ <-. unfold shape0. cbn [rows]. apply length_map. }
  apply bind_ext; intros n s4. rewrite <- HD.
  apply for_range_ext. intros s. apply iteration_single_label.
Qed.


End AdalineLabels.

(** ** AdalineGD: a learning rate of zero *)

Lemma vsub_zeros y : vsub y (zeros (length y)) = y.
Proof.
  induction y as [|a y IH]; [reflexivity|]. cbn. unfold zeros in IH.
  rewrite IH. f_equal. ring.
Qed.

Lemma net_input_zeros rs d : map (fun r => dot r (zeros d)) rs
                             = zeros (length rs).
Proof.
  induction rs as [|r rs IH]; [reflexivity|]. cbn [map length].
  rewrite IH, dot_zeros_r. reflexivity.
Qed.

Lemma map_const_seq {A} (c : A) (f : nat -> A) k : forall s,
  (forall i, f i = c) -> map f (seq s k) = repeat c k.
Proof.
  induction k as [|k IH]; intros s H; [reflexivity|].
  cbn [seq map repeat]. now rewrite H, IH.
Qed.

Lemma adaline_trajectory_eta0 D y : is_2d D -> forall k,
  AdalineSpec.trajectory 0 D y k = zeros (shape1 D).
Proof.
  intros H2. induction k as [|k IH]; [reflexivity|].
  cbn [AdalineSpec.trajectory]. rewrite IH. unfold AdalineSpec.update.
  replace (0 / nat2Qc (shape0 D)) with 0 by (unfold Qcdiv; ring).
  apply vadd_vscale_0. now rewrite length_Xt_dot, length_zeros.
Qed.

Section AdalineZeroRate.
Variable poly_terms : Z -> vec -> vec.
Variable poly_width : Z -> nat -> nat.

(** X16.  With [eta = 0], [AdalineGD.fit] goes through its [niter]
    iterations without moving: the weights stay at the zero vector and
    every cost it appends is that of predicting 0, [(y . y) / (2n)]. *)
Theorem AdalineGD_fit_zero_learning_rate self X y D :
  AdalineGD.degree self = 1%Z ->
  AdalineGD.design poly_terms poly_width self X = inr D ->
  is_2d X -> length y = shape0 X -> shape0 X <> 0%nat ->
  AdalineGD.eta self = 0 ->
  AdalineGD.thetas (fst (AdalineGD.fit poly_terms poly_width X y self))
    = Some (zeros (1 + shape1 X)) /\
  AdalineGD.cost (fst (AdalineGD.fit poly_terms poly_width X y self))
    = AdalineGD.cost self ++
      repeat (dot y y / (Z2Qc 2 * nat2Qc (shape0 X)))
             (Z.to_nat (AdalineGD.niter self)).
Proof.
  intros Hd HD H2 Hy _ He.
  destruct (adaline_design_shape poly_terms poly_width self X D Hd HD H2)
    as (Hs & H0 & H2D).
  rewrite (afit_run poly_terms poly_width self X y D Hd HD H2 Hy).
  cbn [fst AdalineGD.thetas AdalineGD.cost AdalineGD.set_cost
       AdalineGD.set_thetas]. rewrite He.
  split.
  - now rewrite (adaline_trajectory_eta0 D y H2D), Hs.
  - f_equal. unfold AdalineSpec.costs. apply map_const_seq. intros i.
    rewrite (adaline_trajectory_eta0 D y H2D).
    unfold AdalineSpec.cost_of, AdalineSpec.error_of.
    rewrite net_input_zeros. fold (shape0 D). rewrite H0, <- Hy.
    now rewrite vsub_zeros.
Qed.

End AdalineZeroRate.

(** ** The two [predict] methods agree *)

(** X17.  On a design matrix whose column count is the length of the
    weight vector, [AdalineGD.predict] with these weights returns, row by
    row, what [Perceptron.predict] returns for the row. *)
Theorem AdalineGD_predict_rowwise (sa : AdalineGD.t) (sp : Perceptron.t) D :
  is_2d D -> shape1 D = length (thetas sp) ->
  exists ps,
    snd (AdalineGD.predict D (Some (thetas sp)) sa) = Ret ps /\
    Forall2 (fun r p => snd (Perceptron.predict r sp) = Ret p) (rows D) ps.
Proof.
  intros H2 Hs.
  exists (map (classify (thetas sp)) (rows D)). split.
  - unfold AdalineGD.predict, bind, lift. cbn [AdalineGD.net_input_self].
    unfold NeuralBase.net_input_2d. rewrite Hs, Nat.eqb_refl.
    cbn [ret snd]. unfold where_ge0, AdalineGD.activation.
    now rewrite map_map.
  - unfold is_2d in H2. induction (rows D) as [|r rs IH]; [constructor|].
    apply Forall_cons_iff in H2. destruct H2 as [Hr Hrs].
    cbn [map]. constructor; [|now apply IH].
    rewrite predict_run by congruence. reflexivity.
Qed.

(** ** plot_decision_boundary *)

Import Pyplot.

Lemma each_plot_samples positive l : forall c,
  Forall (fun s : vec * Qc => (2 <= length (fst s))%nat) l ->
  each l (plot_sample positive) c = (c ++ map (marker positive) l, inr tt).
Proof.
  induction l as [|[x t] l IH]; intros c H.
  - cbn. now rewrite app_nil_r.
  - apply Forall_cons_iff in H. destruct H as [Hx Hl]. cbn [fst] in Hx.
    destruct x as [|a [|b x]]; cbn in Hx; try lia.
    cbn [each]. unfold pbind at 1. cbn. rewrite (IH _ Hl).
    now rewrite <- app_assoc.
Qed.

Lemma each_plot_line (f : Qc -> Qc) fmt l : forall c,
  each l (fun i => plot i (f i) fmt) c =
  (c ++ map (fun i => (i, f i, fmt)) l, inr tt).
Proof.
  induction l as [|i l IH]; intros c.
  - cbn. now rewrite app_nil_r.
  - cbn [each]. unfold pbind at 1. cbn. rewrite IH.
    now rewrite <- app_assoc.
Qed.

Lemma first_column_nonempty inputs :
  is_2d inputs -> (1 <= shape1 inputs)%nat -> rows inputs <> [] ->
  exists a l, first_column inputs = a :: l.
Proof.
  unfold is_2d, first_column. intros H2 Hs Hr.
  destruct (rows inputs) as [|r rs]; [congruence|].
  apply Forall_cons_iff in H2. destruct H2 as [Hl _].
  destruct r as [|a r]; [cbn in Hl; lia|]. cbn. eauto.
Qed.

Lemma length_linspace lo hi : length (linspace lo hi) = 50%nat.
Proof.
  unfold linspace. rewrite length_app, length_map, length_seq. reflexivity.
Qed.


(** X19.  With fewer than three weights, [plot_decision_boundary] raises
    [IndexError] from the subscript, after the markers of the samples have
    been drawn and before any point of the line. *)
Theorem plot_decision_boundary_short_weights
    positive inputs targets weights c :
  is_2d inputs -> (2 <= shape1 inputs)%nat ->
  (length weights < 3)%nat ->
  plot_decision_boundary positive inputs targets weights c =
  (c ++ map (marker positive) (combine (rows inputs) targets),
   inl IndexError).
Proof.
  intros H2 Hs Hw.
  assert (Hl : Forall (fun s : vec * Qc => (2 <= length (fst s))%nat)
                      (combine (rows inputs) targets)).
  { apply Forall_forall. intros [x t] Hin. apply in_combine_l in Hin.
    unfold is_2d in H2. rewrite Forall_forall in H2. cbn [fst].
    rewrite (H2 x Hin). exact Hs. }
  unfold plot_decision_boundary. unfold pbind at 1.
  rewrite (each_plot_samples positive _ c Hl).
  unfold pbind, plift, index.
  destruct weights as [|a [|b [|d ws]]]; cbn in Hw; try lia; reflexivity.
Qed.

(** ** The further properties at concrete inputs *)

Lemma Perceptron_fit_twice_witness :
  Perceptron.fit no_poly_terms no_poly_width 10 X_and y_and
    (fst (Perceptron.fit no_poly_terms no_poly_width 10 X_and y_and
            Perceptron.default)) =
  Perceptron.fit no_poly_terms no_poly_width 10 X_and y_and
    Perceptron.default.
Proof.
  apply (Perceptron_fit_twice no_poly_terms no_poly_width Perceptron.default
           X_and y_and 10 D_and).
  - reflexivity.
  - repeat constructor.
Defined.

Lemma Perceptron_history_zero_only_last_witness :
  0 <= tol Perceptron.default /\
  forall i, (S i < length [2; 3; 3; 2; 1; 0])%nat ->
            nth i [2; 3; 3; 2; 1; 0]%nat 0%nat <> 0%nat.
Proof.
  split; [vm_compute; discriminate|].
  apply (Perceptron_history_zero_only_last no_poly_terms no_poly_width
           Perceptron.default X_and y_and 10 D_and).
  - reflexivity.
  - repeat constructor.
  - vm_compute. discriminate.
  - vm_compute. reflexivity.
Defined.

Lemma Perceptron_negative_tol_never_stops_witness :
  tol perceptron_negative_tol < 0 /\
  forall fuel,
    snd (Perceptron.fit no_poly_terms no_poly_width fuel X_and y_and
           perceptron_negative_tol) = OutOfFuel /\
    option_map (@length nat)
      (errors (fst (Perceptron.fit no_poly_terms no_poly_width fuel X_and
                      y_and perceptron_negative_tol))) = Some fuel.
Proof.
  split; [vm_compute; reflexivity|].
  apply (Perceptron_negative_tol_never_stops no_poly_terms no_poly_width
           perceptron_negative_tol X_and y_and D_and).
  - reflexivity.
  - repeat constructor.
  - vm_compute. reflexivity.
Defined.

Lemma Perceptron_history_bounded_witness :
  Forall (fun e => (e <= Nat.min (shape0 D_and) (length y_and))%nat)
         [2; 3; 3; 2; 1; 0]%nat.
Proof.
  apply (Perceptron_history_bounded no_poly_terms no_poly_width
           Perceptron.default X_and y_and 10 D_and).
  - reflexivity.
  - repeat constructor.
  - vm_compute. reflexivity.
Defined.

Lemma Perceptron_weights_frame_witness :
  exists df es,
    weights (fst (Perceptron.fit no_poly_terms no_poly_width 10 X_and y_and
                    Perceptron.default)) = Some df /\
    errors (fst (Perceptron.fit no_poly_terms no_poly_width 10 X_and y_and
                   Perceptron.default)) = Some es /\
    df_index df = map Z.of_nat (seq 0 (length es)) /\
    length (df_values df) = length es /\
    Forall (fun r => length r = 3%nat) (df_values df) /\
    last (df_values df) [] =
      thetas (fst (Perceptron.fit no_poly_terms no_poly_width 10 X_and y_and
                     Perceptron.default)).
Proof.
  apply (Perceptron_weights_frame no_poly_terms no_poly_width
           Perceptron.default X_and y_and 10 D_and).
  - reflexivity.
  - repeat constructor.
  - vm_compute. reflexivity.
Defined.

Lemma Perceptron_fit_ignores_extra_labels_witness :
  Perceptron.fit no_poly_terms no_poly_width 10 X_and (y_and ++ [1; 1])
    Perceptron.default =
  Perceptron.fit no_poly_terms no_poly_width 10 X_and y_and
    Perceptron.default.
Proof.
  apply (Perceptron_fit_ignores_extra_labels no_poly_terms no_poly_width
           Perceptron.default X_and y_and [1; 1] 10).
  cbn. lia.
Defined.

Lemma Perceptron_fit_empty_data_witness :
  snd (Perceptron.fit no_poly_terms no_poly_width 1 X_none y_and
         Perceptron.default) <> OutOfFuel /\
  thetas (fst (Perceptron.fit no_poly_terms no_poly_width 1 X_none y_and
                 Perceptron.default)) = zeros (shape1 D_none) /\
  errors (fst (Perceptron.fit no_poly_terms no_poly_width 1 X_none y_and
                 Perceptron.default)) = Some [0%nat].
Proof.
  apply (Perceptron_fit_empty_data no_poly_terms no_poly_width
           Perceptron.default X_none y_and 0 D_none).
  - reflexivity.
  - constructor.
  - vm_compute. discriminate.
  - left. reflexivity.
Defined.

Lemma Perceptron_fit_labels_0_1_witness :
  snd (Perceptron.fit no_poly_terms no_poly_width 1 X_and y_01
         Perceptron.default) <> OutOfFuel /\
  thetas (fst (Perceptron.fit no_poly_terms no_poly_width 1 X_and y_01
                 Perceptron.default)) = zeros (shape1 D_and) /\
  errors (fst (Perceptron.fit no_poly_terms no_poly_width 1 X_and y_01
                 Perceptron.default))
    = Some [zero_labels (samples D_and y_01)].
Proof.
  apply (Perceptron_fit_labels_0_1 no_poly_terms no_poly_width
           Perceptron.default X_and y_01 0 D_and).
  - reflexivity.
  - repeat constructor.
  - vm_compute. discriminate.
  - constructor; [left; reflexivity|].
    constructor; [left; reflexivity|].
    constructor; [left; reflexivity|].
    constructor; [right; reflexivity | constructor].
Defined.

Lemma Perceptron_fit_from_scratch_witness :
  Perceptron.fit no_poly_terms no_poly_width 10 X_and y_and
    Perceptron.default =
  Perceptron.fit no_poly_terms no_poly_width 10 X_and y_and
    (set_errors (Some [7%nat]) (set_thetas [1; 1; 1] Perceptron.default)).
Proof.
  apply (Perceptron_fit_from_scratch no_poly_terms no_poly_width 10 X_and
           y_and Perceptron.default
           (set_errors (Some [7%nat]) (set_thetas [1; 1; 1] Perceptron.default))
           D_and); reflexivity.
Defined.

Lemma AdalineGD_fit_twice_history_witness :
  let c := AdalineSpec.costs (AdalineGD.eta adaline_3) D_and y_and
             (Z.to_nat (AdalineGD.niter adaline_3)) in
  let once :=
    fst (AdalineGD.fit no_poly_terms no_poly_width X_and y_and adaline_3) in
  let twice :=
    fst (AdalineGD.fit no_poly_terms no_poly_width X_and y_and once) in
  AdalineGD.thetas twice = AdalineGD.thetas once /\
  AdalineGD.cost once = AdalineGD.cost adaline_3 ++ c /\
  AdalineGD.cost twice = AdalineGD.cost adaline_3 ++ c ++ c /\
  length (AdalineGD.cost twice) =
    (length (AdalineGD.cost adaline_3)
     + 2 * Z.to_nat (AdalineGD.niter adaline_3))%nat.
Proof.
  apply (AdalineGD_fit_twice_history no_poly_terms no_poly_width adaline_3
           X_and y_and D_and).
  - reflexivity.
  - reflexivity.
  - repeat constructor.
  - reflexivity.
  - discriminate.
Defined.

Lemma AdalineGD_fit_label_mismatch_witness :
  AdalineGD.fit no_poly_terms no_poly_width X_and [1; 1] adaline_3 =
  (AdalineGD.set_thetas (Some (zeros (1 + shape1 X_and))) adaline_3,
   Raise ValueError).
Proof.
  apply (AdalineGD_fit_label_mismatch no_poly_terms no_poly_width adaline_3
           X_and [1; 1]).
  - reflexivity.
  - reflexivity.
  - discriminate.
  - discriminate.
Defined.


Lemma AdalineGD_fit_zero_learning_rate_witness :
  AdalineGD.thetas
    (fst (AdalineGD.fit no_poly_terms no_poly_width X_and y_and
            (AdalineGD.init 0 3 true)))
    = Some (zeros (1 + shape1 X_and)) /\
  AdalineGD.cost
    (fst (AdalineGD.fit no_poly_terms no_poly_width X_and y_and
            (AdalineGD.init 0 3 true)))
    = AdalineGD.cost (AdalineGD.init 0 3 true) ++
      repeat (dot y_and y_and / (Z2Qc 2 * nat2Qc (shape0 X_and)))
             (Z.to_nat (AdalineGD.niter (AdalineGD.init 0 3 true))).
Proof.
  apply (AdalineGD_fit_zero_learning_rate no_poly_terms no_poly_width
           (AdalineGD.init 0 3 true) X_and y_and D_and).
  - reflexivity.
  - reflexivity.
  - repeat constructor.
  - reflexivity.
  - discriminate.
  - reflexivity.
Defined.

Lemma AdalineGD_predict_rowwise_witness :
  exists ps,
    snd (AdalineGD.predict D_and
           (Some (thetas (set_thetas [Z2Qc (-3); Z2Qc 2; 1]
                            Perceptron.default)))
           AdalineGD.default) = Ret ps /\
    Forall2 (fun r p =>
               snd (Perceptron.predict r
                      (set_thetas [Z2Qc (-3); Z2Qc 2; 1] Perceptron.default))
               = Ret p)
            (rows D_and) ps.
Proof.
  apply (AdalineGD_predict_rowwise AdalineGD.default
           (set_thetas [Z2Qc (-3); Z2Qc 2; 1] Perceptron.default) D_and).
  - repeat constructor.
  - reflexivity.
Defined.


Lemma plot_decision_boundary_short_weights_witness :
  plot_decision_boundary "rx"%string X_and y_and [1; 1] [] =
  ([] ++ map (marker "rx"%string) (combine (rows X_and) y_and),
   inl IndexError).
Proof.
  apply (plot_decision_boundary_short_weights "rx"%string X_and y_and
           [1; 1] []).
  - repeat constructor.
  - cbn. lia.
  - cbn. lia.
Defined.
